(** * The camera node of the whack-a-mole project

    A shallow embedding of [whack_a_mole/camera.py] (class [Camera]) and the
    properties of its perception pipeline: the depth gate, the colour
    segmentation, the per-colour centroid history with its median, the
    fallback 3D point and the broadcast loop.

    Numbers are modelled as the code has them: pixel channels, depth values
    and pixel coordinates are integers ([Z]); the exact mean and median of
    integers are rationals ([Q]) before [int(...)] / [dtype=int] truncates
    them; the deprojected 3D points are binary64 floats ([PrimFloat.float]).
    A Python exception is a value of [exn]; a method of the node is a
    function from the node state to a result, the state it leaves behind and
    the messages it handed to the middleware. *)

From Stdlib Require Import String ZArith Bool Lia QArith PrimFloat.
From Stdlib Require Import List Permutation Sorted.
Import ListNotations.

Open Scope Z_scope.

(** ** Exceptions and results *)

Inductive exn : Type :=
| ValueError   (* numpy: operands could not be broadcast together; nan to int *)
| KeyError     (* a dict has no such key *)
| IndexError   (* an array index out of range *)
| Cv2Error     (* cv2.error: an image without a pixel, bounds of the wrong shape *)
| Raised (tag : nat). (* raised inside a collaborator that is not in this file *)

Inductive result (A : Type) : Type :=
| Ok (a : A)
| Err (e : exn).

Arguments Ok {A} a.
Arguments Err {A} e.

Definition rbind {A B : Type} (r : result A) (f : A -> result B) : result B :=
  match r with
  | Ok a => f a
  | Err e => Err e
  end.

Definition of_option {A : Type} (e : exn) (o : option A) : result A :=
  match o with
  | Some a => Ok a
  | None => Err e
  end.

Fixpoint rmap {A B : Type} (f : A -> result B) (l : list A) : result (list B) :=
  match l with
  | [] => Ok []
  | a :: l' =>
      rbind (f a) (fun b => rbind (rmap f l') (fun bs => Ok (b :: bs)))
  end.

(** ** Images *)

(** A [bgr8] pixel: three [uint8] channels.  The HSV conversion of a pixel
    has the same shape. *)
Definition pixel : Type := (Z * Z * Z)%type.

(** An array of shape (H, W, ...): the list of its rows. *)
Definition image (A : Type) : Type := list (list A).

(** [arr.shape[0]] *)
Definition shape0 {A : Type} (arr : list A) : nat := length arr.

(** [arr[y, x]] (row [y], column [x]) for indices in range. *)
Definition at_px {A : Type} (arr : image A) (y x : nat) : option A :=
  match nth_error arr y with
  | Some row => nth_error row x
  | None => None
  end.

(** numpy's broadcasting of one axis: equal lengths pair up, a length of 1 is
    repeated, anything else is [ValueError]. *)
Fixpoint zip_with {A B C : Type} (f : A -> B -> result C)
  (xs : list A) (ys : list B) : result (list C) :=
  match xs, ys with
  | [], [] => Ok []
  | x :: xs', y :: ys' =>
      rbind (f x y) (fun c => rbind (zip_with f xs' ys') (fun cs => Ok (c :: cs)))
  | _, _ => Err ValueError
  end.

Definition broadcast_axis {A B C : Type} (f : A -> B -> result C)
  (xs : list A) (ys : list B) : result (list C) :=
  if Nat.eqb (length xs) (length ys) then zip_with f xs ys
  else
    match xs, ys with
    | [x], _ => rmap (fun y => f x y) ys
    | _, [y] => rmap (fun x => f x y) xs
    | _, _ => Err ValueError
    end.

(** ** The depth gate (find_color_centroid, lines 183-190) *)

(** [np.dstack((d, d, d))] at one pixel. *)
Definition dstack3 (d : Z) : Z * Z * Z := (d, d, d).

(** [(depth_image_3d > clipping_distance) | (depth_image_3d <= 0)] at one
    channel. *)
Definition gate_cond (clipping_distance d : Z) : bool :=
  (d >? clipping_distance) || (d <=? 0).

(** [np.where(cond, 0, color_image)] at one pixel, channel by channel. *)
Definition where0 (clipping_distance : Z) (d3 : Z * Z * Z) (p : pixel) : pixel :=
  let '(d0, d1, d2) := d3 in
  let '(b, g, r) := p in
  (if gate_cond clipping_distance d0 then 0 else b,
   if gate_cond clipping_distance d1 then 0 else g,
   if gate_cond clipping_distance d2 then 0 else r).

Definition bg_removed (clipping_distance : Z)
  (depth_image : image Z) (color_image : image pixel) : result (image pixel) :=
  broadcast_axis
    (broadcast_axis (fun d p => Ok (where0 clipping_distance (dstack3 d) p)))
    depth_image color_image.

(** The gate on a row of depths and a row of pixels of the same width. *)
Definition gate_row (clipping_distance : Z) (drow : list Z) (crow : list pixel) : list pixel :=
  map (fun dp => where0 clipping_distance (dstack3 (fst dp)) (snd dp)) (combine drow crow).

(** The background value a gated pixel is set to. *)
Definition zero_px : pixel := (0, 0, 0).


(** ** The colour segmentation (find_color_centroid, lines 191-203) *)

(** [lower_HSV] / [higher_HSV]: an array of shape (3,), or of shape (2, 3) for
    a colour whose hue wraps around. *)
Inductive bounds : Type :=
| Bound (b : pixel)
| Bounds2 (b0 b1 : pixel).

(** [cv2.inRange] at one pixel: 255 when every channel lies between the
    bounds (inclusive), 0 otherwise. *)
Definition inRange (v lo hi : pixel) : Z :=
  let '(v0, v1, v2) := v in
  let '(l0, l1, l2) := lo in
  let '(h0, h1, h2) := hi in
  if (l0 <=? v0) && (v0 <=? h0) && (l1 <=? v1) && (v1 <=? h1)
     && (l2 <=? v2) && (v2 <=? h2)
  then 255 else 0.

(** Addition of two [uint8] values, as numpy does it: modulo 256. *)
Definition uint8_add (a b : Z) : Z := (a + b) mod 256.

Definition img_map {A B : Type} (f : A -> B) (img : image A) : image B :=
  map (map f) img.

(** [mask1 + mask2] for two masks computed from the same image. *)
Definition img_add (m1 m2 : image Z) : image Z :=
  map (fun rr => map (fun ab => uint8_add (fst ab) (snd ab)) (combine (fst rr) (snd rr)))
      (combine m1 m2).

(** An array without a pixel: no row, or rows without a column. *)
Definition no_pixels {A : Type} (img : image A) : bool :=
  forallb (fun row => match row with [] => true | _ :: _ => false end) img.

(** The mask of lines 191-202; [cvt] is [cv2.cvtColor(_, cv2.COLOR_BGR2HSV)]
    at one pixel.  [cv2.cvtColor] is the first call either branch evaluates,
    and it raises [cv2.error] on an image without a pixel.  What cv2 does
    with a lower and an upper bound of two different shapes is not modelled:
    it is taken as an error. *)
Definition segment (cvt : pixel -> pixel) (lower_HSV higher_HSV : bounds)
  (bg : image pixel) : result (image Z) :=
  if no_pixels bg then Err Cv2Error
  else
    match lower_HSV, higher_HSV with
    | Bounds2 lo0 lo1, Bounds2 hi0 hi1 =>
        let mask1 := img_map (fun p => inRange (cvt p) lo0 hi0) bg in
        let mask2 := img_map (fun p => inRange (cvt p) lo1 hi1) bg in
        Ok (img_add mask1 mask2)
    | Bound lo, Bound hi => Ok (img_map (fun p => inRange (cvt p) lo hi) bg)
    | _, _ => Err Cv2Error
    end.

(** [np.any(mask)] *)
Definition np_any (mask : image Z) : bool :=
  existsb (existsb (fun v => negb (v =? 0))) mask.

(** ** The centroid of the mask inside the rectangle *)

(** The rectangle [(start_x, start_y, end_x, end_y)].  The spec does not
    say whether the end belongs to it; it is excluded here, as in a slice. *)
Definition in_rect (rect : Z * Z * Z * Z) (x y : Z) : bool :=
  let '(sx, sy, ex, ey) := rect in
  (sx <=? x) && (x <? ex) && (sy <=? y) && (y <? ey).

(** The (x, y) coordinates of the "on" pixels of one row, [x] being the
    column of its first element. *)
Fixpoint on_in_row (rect : Z * Z * Z * Z) (y x : Z) (row : list Z) : list (Z * Z) :=
  match row with
  | [] => []
  | v :: row' =>
      (if negb (v =? 0) && in_rect rect x y then [(x, y)] else [])
        ++ on_in_row rect y (x + 1) row'
  end.

Fixpoint on_in_rows (rect : Z * Z * Z * Z) (y : Z) (rows : image Z) : list (Z * Z) :=
  match rows with
  | [] => []
  | row :: rows' => on_in_row rect y 0 row ++ on_in_rows rect (y + 1) rows'
  end.

(** The "on" pixels of the mask that lie in the rectangle. *)
Definition on_pixels (mask : image Z) (rect : Z * Z * Z * Z) : list (Z * Z) :=
  on_in_rows rect 0 mask.

Definition Zsum (l : list Z) : Z := fold_right Z.add 0 l.

(** The mean of a non-empty list of integers. *)
Definition mean (l : list Z) : Q := Qmake (Zsum l) (Pos.of_nat (length l)).

(** The "not found" sentinel (-1, -1). *)
Definition not_found : Z * Z := (-1, -1).

(** Modelled from the spec: [OpenCVClient.find_centroid_cropped] is in
    [mole_detection.py], which is not among the sources.  The spec's Centroid
    Extractor (4.3): the mean pixel coordinate of the "on" pixels restricted
    to the rectangle, and the sentinel (-1, -1) when no "on" pixel exists in
    the rectangle. *)
Definition find_centroid_cropped (mask : image Z) (rect : Z * Z * Z * Z) : Q * Q :=
  match on_pixels mask rect with
  | [] => (inject_Z (fst not_found), inject_Z (snd not_found))
  | ps => (mean (map fst ps), mean (map snd ps))
  end.

(** Python's [int(x)] on a number: truncation toward zero. *)
Definition py_int (q : Q) : Z := Z.quot (Qnum q) (Zpos (Qden q)).

(** ** The median of a history (broadcast_color, lines 164-165) *)

Fixpoint insert_sorted (x : Z) (l : list Z) : list Z :=
  match l with
  | [] => [x]
  | y :: l' => if x <=? y then x :: l else y :: insert_sorted x l'
  end.

Definition sort (l : list Z) : list Z := fold_right insert_sorted [] l.

(** [np.median] of a one-dimensional array of integers: the middle element
    of the sorted array, or the mean of the two middle elements when the
    length is even.  The median of an empty array is nan, which has no
    integer value: the cast of line 165 is modelled as [ValueError] there. *)
Definition np_median (l : list Z) : result Q :=
  let s := sort l in
  let n := length l in
  match n with
  | O => Err ValueError
  | _ =>
      if Nat.odd n then Ok (inject_Z (nth (n / 2) s 0))
      else Ok (Qmake (nth (n / 2 - 1) s 0 + nth (n / 2) s 0) 2)
  end.

(** [np.array(np.median(history, axis=0), dtype=int)]: the median of each
    coordinate axis, each cast to an integer. *)
Definition median_centroid (history : list (Z * Z)) : result (Z * Z) :=
  rbind (np_median (map fst history)) (fun mx =>
  rbind (np_median (map snd history)) (fun my =>
  Ok (py_int mx, py_int my))).

(** The smallest and the largest element of a list (0 for the empty list). *)
Definition list_min (l : list Z) : Z := fold_right Z.min (hd 0 l) l.
Definition list_max (l : list Z) : Z := fold_right Z.max (hd 0 l) l.

(** How many samples are equal to [v], and how many are smaller. *)
Definition occurrences (v : Z) (l : list Z) : nat := count_occ Z.eq_dec l v.
Definition smaller (v : Z) (l : list Z) : nat := length (filter (fun x => x <? v) l).

(** The history after [k] detections of [c] were recorded. *)
Fixpoint shifted (k : nat) (h : list (Z * Z)) (c : Z * Z) : list (Z * Z) :=
  match k with
  | O => h
  | S k' => shifted k' (tl h ++ [c]) c
  end.

(** [h[:-1] = h[1:]; h[-1] = c] (lines 159-162): the oldest sample is
    dropped and [c] is appended; the last index of an empty history is out
    of range. *)
Definition shift (h : list (Z * Z)) (c : Z * Z) : result (list (Z * Z)) :=
  match h with
  | [] => Err IndexError
  | _ :: h' => Ok (h' ++ [c])
  end.

(** [arr[i]] and [arr[i] = v] on the first axis. *)
Definition getitem {A : Type} (arr : list A) (i : nat) : result A :=
  of_option IndexError (nth_error arr i).

Fixpoint setitem {A : Type} (arr : list A) (i : nat) (v : A) : list A :=
  match arr, i with
  | [], _ => []
  | _ :: arr', O => v :: arr'
  | a :: arr', S i' => a :: setitem arr' i' v
  end.

(** [d[key]] on a dict kept as the list of its items, in insertion order. *)
Fixpoint dict_get {V : Type} (d : list (string * V)) (key : string) : result V :=
  match d with
  | [] => Err KeyError
  | (k, v) :: d' => if String.eqb k key then Ok v else dict_get d' key
  end.

Definition keys {V : Type} (d : list (string * V)) : list string := map fst d.

(** ** Messages handed to the middleware *)

Definition point : Type := (float * float * float)%type.

Record TransformStamped : Type := {
  stamp : Z;
  frame_id : string;
  child_frame_id : string;
  translation : point;
  rotation : float * float * float * float
}.

Inductive event : Type :=
| SendTransform (t : TransformStamped)   (* tf_broadcaster.sendTransform *)
| PublishImage (img : image pixel).      (* image_pub.publish *)


(** ** The node state and its collaborators *)

Section Model.

(** What [OpenCVClient.detect_illumination] keeps for itself. *)
Context {Illum : Type}.

(** The fields of [self.cv2_client] the node reads and writes. *)
Record OpenCVClient : Type := {
  color_image : image pixel;
  depth_image : image Z;
  camera_intrinsics : list float;
  running_avg : list (list (Z * Z));
  illumination : Illum
}.

(** The fields of the [Camera] node.  [clock_reads] counts the readings of
    the node's clock. *)
Record Camera : Type := {
  crop : (Z * Z) * (Z * Z);
  clipping_distance : Z;
  prev_xyz : point;
  cv2_client : OpenCVClient;
  update_colors : bool;
  clock_reads : nat
}.

(** The configuration tables of [whack_a_mole.constants], the functions of
    cv2 and the methods of [OpenCVClient] that the node calls and that are
    not part of [camera.py]. *)
Record Env : Type := {
  COLORS : list (string * nat);
  COLORS_HSV : list (string * (bounds * bounds));
  cvtColor_BGR2HSV : pixel -> pixel;
  cv2_circle : image pixel -> Z * Z -> image pixel;
  cv2_putText : image pixel -> string -> Z * Z -> image pixel;
  cv2_rectangle : image pixel -> Z * Z -> Z * Z -> image pixel;
  get_3d_coordinates_at_pixel : OpenCVClient -> Z -> Z -> string -> result point;
  detect_illumination : OpenCVClient -> string -> result unit * Illum;
  clock_now : nat -> Z
}.

Variable E : Env.

Definition set_running_avg (ra : list (list (Z * Z))) (c : OpenCVClient) : OpenCVClient :=
  {| color_image := color_image c; depth_image := depth_image c;
     camera_intrinsics := camera_intrinsics c; running_avg := ra;
     illumination := illumination c |}.

Definition set_illumination (il : Illum) (c : OpenCVClient) : OpenCVClient :=
  {| color_image := color_image c; depth_image := depth_image c;
     camera_intrinsics := camera_intrinsics c; running_avg := running_avg c;
     illumination := il |}.

Definition set_color_image (img : image pixel) (c : OpenCVClient) : OpenCVClient :=
  {| color_image := img; depth_image := depth_image c;
     camera_intrinsics := camera_intrinsics c; running_avg := running_avg c;
     illumination := illumination c |}.

Definition set_depth_image (img : image Z) (c : OpenCVClient) : OpenCVClient :=
  {| color_image := color_image c; depth_image := img;
     camera_intrinsics := camera_intrinsics c; running_avg := running_avg c;
     illumination := illumination c |}.

Definition set_camera_intrinsics (k : list float) (c : OpenCVClient) : OpenCVClient :=
  {| color_image := color_image c; depth_image := depth_image c;
     camera_intrinsics := k; running_avg := running_avg c;
     illumination := illumination c |}.

Definition with_client (f : OpenCVClient -> OpenCVClient) (st : Camera) : Camera :=
  {| crop := crop st; clipping_distance := clipping_distance st;
     prev_xyz := prev_xyz st; cv2_client := f (cv2_client st);
     update_colors := update_colors st; clock_reads := clock_reads st |}.

Definition set_prev_xyz (p : point) (st : Camera) : Camera :=
  {| crop := crop st; clipping_distance := clipping_distance st;
     prev_xyz := p; cv2_client := cv2_client st;
     update_colors := update_colors st; clock_reads := clock_reads st |}.

Definition set_update_colors (b : bool) (st : Camera) : Camera :=
  {| crop := crop st; clipping_distance := clipping_distance st;
     prev_xyz := prev_xyz st; cv2_client := cv2_client st;
     update_colors := b; clock_reads := clock_reads st |}.

Definition tick_clock (st : Camera) : Camera :=
  {| crop := crop st; clipping_distance := clipping_distance st;
     prev_xyz := prev_xyz st; cv2_client := cv2_client st;
     update_colors := update_colors st; clock_reads := S (clock_reads st) |}.

(** *** Methods: state, exceptions and emitted messages *)

Definition M (A : Type) : Type := Camera -> result A * Camera * list event.

Definition ret {A : Type} (a : A) : M A := fun st => (Ok a, st, []).

Definition bind {A B : Type} (m : M A) (f : A -> M B) : M B :=
  fun st =>
    match m st with
    | (Ok a, st1, ev1) =>
        match f a st1 with
        | (r, st2, ev2) => (r, st2, ev1 ++ ev2)
        end
    | (Err e, st1, ev1) => (Err e, st1, ev1)
    end.

Definition lift {A : Type} (r : result A) : M A := fun st => (r, st, []).

Definition get : M Camera := fun st => (Ok st, st, []).

Definition modify (f : Camera -> Camera) : M unit := fun st => (Ok tt, f st, []).

Definition emit (e : event) : M unit := fun st => (Ok tt, st, [e]).

Notation "x <- m ;; k" := (bind m (fun x => k))
  (at level 61, m at next level, right associativity).
Notation "m ;;; k" := (bind m (fun _ => k))
  (at level 61, right associativity).

(** [for x in xs: body(x)] *)
Fixpoint for_each {A : Type} (xs : list A) (body : A -> M unit) : M unit :=
  match xs with
  | [] => ret tt
  | x :: xs' => body x ;;; for_each xs' body
  end.

(** *** find_color_centroid (lines 171-233) *)

(** The loop of lines 210-229: for every colour of [COLORS], a circle and the
    colour's name are drawn at the median of its history. *)
Fixpoint annotate (colors : list string) (img : image pixel) : M (image pixel) :=
  match colors with
  | [] => ret img
  | color :: colors' =>
      color_index <- lift (dict_get (COLORS E) color) ;;
      st <- get ;;
      h <- lift (getitem (running_avg (cv2_client st)) color_index) ;;
      avg_centroid <- lift (median_centroid h) ;;
      annotate colors'
        (cv2_putText E (cv2_circle E img avg_centroid) color avg_centroid)
  end.

(** The rectangle handed to [find_centroid_cropped]:
    [( *self.crop[0], *self.crop[1])]. *)
Definition crop_rect (st : Camera) : Z * Z * Z * Z :=
  (fst (fst (crop st)), snd (fst (crop st)), fst (snd (crop st)), snd (snd (crop st))).

(** The depth-gated image and the mask of the current buffers. *)
Definition gated (st : Camera) : result (image pixel) :=
  bg_removed (clipping_distance st)
    (depth_image (cv2_client st)) (color_image (cv2_client st)).

Definition find_color_centroid (lower_HSV higher_HSV : bounds) : M (Z * Z) :=
  st <- get ;;
  bg <- lift (gated st) ;;
  mask <- lift (segment (cvtColor_BGR2HSV E) lower_HSV higher_HSV bg) ;;
  if negb (np_any mask) then ret not_found
  else
    let c := find_centroid_cropped mask (crop_rect st) in
    let x_c := py_int (fst c) in
    let y_c := py_int (snd c) in
    img <- annotate (keys (COLORS E)) bg ;;
    emit (PublishImage (cv2_rectangle E img (fst (crop st)) (snd (crop st)))) ;;;
    ret (x_c, y_c).

(** The centroid of line 207-209 for a mask with an "on" pixel. *)
Definition cropped_centroid (mask : image Z) (st : Camera) : Z * Z :=
  let c := find_centroid_cropped mask (crop_rect st) in
  (py_int (fst c), py_int (snd c)).

(** *** broadcast_color_frame (lines 271-305) *)

(** The remap of lines 296-298 from camera-optical axes. *)
Definition remap (p : point) : point :=
  let '(x, y, z) := p in (z, PrimFloat.opp x, PrimFloat.opp y).

Definition identity_rotation : float * float * float * float :=
  (0%float, 0%float, 0%float, 1%float).

(** [x == -1] *)
Definition is_invalid (p : point) : bool :=
  let '(x, _, _) := p in PrimFloat.eqb x (-1)%float.

Definition broadcast_color_frame (base_frame child_frame : string) (x_c y_c : Z) : M unit :=
  st <- get ;;
  xyz <- lift (get_3d_coordinates_at_pixel E (cv2_client st) x_c y_c child_frame) ;;
  used <- (if is_invalid xyz then ret (prev_xyz st)
           else modify (set_prev_xyz xyz) ;;; ret xyz) ;;
  st1 <- get ;;
  modify tick_clock ;;;
  emit (SendTransform
          {| stamp := clock_now E (clock_reads st1);
             frame_id := base_frame;
             child_frame_id := child_frame;
             translation := remap used;
             rotation := identity_rotation |}).

(** *** broadcast_color (lines 142-169) *)

(** The test of line 157 on the returned centroid. *)
Definition centroid_nonzero (c : Z * Z) : bool :=
  negb (fst c =? 0) && negb (snd c =? 0).

(** Lines 157-162. *)
Definition update_history (color_index : nat) (c : Z * Z) : M unit :=
  st <- get ;;
  if centroid_nonzero c && update_colors st then
    h <- lift (getitem (running_avg (cv2_client st)) color_index) ;;
    h' <- lift (shift h c) ;;
    modify (with_client
              (set_running_avg (setitem (running_avg (cv2_client st)) color_index h')))
  else ret tt.

(** Lines 164-165. *)
Definition smoothed (color_index : nat) : M (Z * Z) :=
  st <- get ;;
  h <- lift (getitem (running_avg (cv2_client st)) color_index) ;;
  lift (median_centroid h).

Definition base_frame_name : string := "camera_depth_frame".

Definition frame_name (color : string) : string := (color ++ "_frame")%string.

Definition broadcast_color (lower_HSV higher_HSV : bounds) (color : string) : M unit :=
  color_index <- lift (dict_get (COLORS E) color) ;;
  c <- find_color_centroid lower_HSV higher_HSV ;;
  update_history color_index c ;;;
  median <- smoothed color_index ;;
  broadcast_color_frame base_frame_name (frame_name color) (fst median) (snd median).

(** *** The callbacks *)

Definition call_detect_illumination (color : string) : M unit :=
  fun st =>
    let '(r, il) := detect_illumination E (cv2_client st) color in
    (r, with_client (set_illumination il) st, []).

(** The body of the loop of timer_callback (lines 119-125). *)
Definition tick_body (color : string) : M unit :=
  hsv <- lift (dict_get (COLORS_HSV E) color) ;;
  broadcast_color (fst hsv) (snd hsv) color ;;;
  call_detect_illumination color.

(** timer_callback (lines 107-125) *)
Definition timer_callback : M unit :=
  st <- get ;;
  if Nat.eqb (shape0 (color_image (cv2_client st))) 0
     || Nat.eqb (shape0 (depth_image (cv2_client st))) 0
  then ret tt
  else for_each (keys (COLORS_HSV E)) tick_body.

(** toggle_tf_publish (lines 127-140) *)
Definition toggle_tf_publish : M unit :=
  st <- get ;;
  modify (set_update_colors (negb (update_colors st))).

(** camera_info_callback, get_depth_info, get_color_info (lines 244-269);
    the argument is the decoded message. *)
Definition camera_info_callback (k : list float) : M unit :=
  modify (with_client (set_camera_intrinsics k)).

Definition get_depth_info (img : image Z) : M unit :=
  modify (with_client (set_depth_image img)).

Definition get_color_info (img : image pixel) : M unit :=
  modify (with_client (set_color_image img)).

(** *** The executor: one callback at a time, in order of arrival *)

Inductive request : Type :=
| Tick
| Toggle
| CameraInfoMsg (k : list float)
| DepthMsg (img : image Z)
| ColorMsg (img : image pixel).

Definition handle (r : request) : M unit :=
  match r with
  | Tick => timer_callback
  | Toggle => toggle_tf_publish
  | CameraInfoMsg k => camera_info_callback k
  | DepthMsg img => get_depth_info img
  | ColorMsg img => get_color_info img
  end.

(** [rclpy.spin]: the requests are served in order; an exception leaves the
    callback and ends the spin. *)
Definition spin (rs : list request) : M unit := for_each rs handle.

(** The histories of a node. *)
Definition histories (st : Camera) : list (list (Z * Z)) :=
  running_avg (cv2_client st).

(** *** Reading a run *)

(** What a run of [m] from [st] returns, leaves and emits satisfies [Q]. *)
Definition wp {A : Type} (m : M A)
  (Q : result A -> Camera -> list event -> Prop) (st : Camera) : Prop :=
  match m st with
  | (r, st', evs) => Q r st' evs
  end.

(** The mask the segmentation computes from the current buffers. *)
Definition mask_of (lower_HSV higher_HSV : bounds) (st : Camera) : result (image Z) :=
  rbind (gated st) (segment (cvtColor_BGR2HSV E) lower_HSV higher_HSV).

(** Whether the mask of a configured colour has an "on" pixel. *)
Definition mask_on (st : Camera) (color : string) : bool :=
  match dict_get (COLORS_HSV E) color with
  | Ok hsv =>
      match mask_of (fst hsv) (snd hsv) st with
      | Ok mask => np_any mask
      | Err _ => false
      end
  | Err _ => false
  end.

(** The colour has an index into the histories and its history is not
    empty. *)
Definition history_ok (st : Camera) (color : string) : bool :=
  match dict_get (COLORS E) color with
  | Ok color_index =>
      match getitem (histories st) color_index with
      | Ok (_ :: _) => true
      | _ => false
      end
  | Err _ => false
  end.

(** The bounds of the colour have one shape and the segmentation of the
    current buffers succeeds. *)
Definition mask_ok (st : Camera) (color : string) : bool :=
  match dict_get (COLORS_HSV E) color with
  | Ok hsv =>
      match mask_of (fst hsv) (snd hsv) st with
      | Ok _ => true
      | Err _ => false
      end
  | Err _ => false
  end.

(** The configuration and the buffers fit together: every colour of either
    table has a non-empty history, and every configured colour can be
    segmented. *)
Definition well_configured (st : Camera) : bool :=
  forallb (history_ok st) (keys (COLORS E))
  && forallb (history_ok st) (keys (COLORS_HSV E))
  && forallb (mask_ok st) (keys (COLORS_HSV E)).

(** Both image buffers hold an image. *)
Definition has_images (st : Camera) : bool :=
  negb (Nat.eqb (shape0 (color_image (cv2_client st))) 0)
  && negb (Nat.eqb (shape0 (depth_image (cv2_client st))) 0).

(** The collaborators do not raise. *)
Definition collaborators_total : Prop :=
  (forall c x y frame, exists p, get_3d_coordinates_at_pixel E c x y frame = Ok p)
  /\ (forall c color, fst (detect_illumination E c color) = Ok tt).

(** The point a transform is made of: the fallback on an invalid
    deprojection, the deprojected point otherwise. *)
Definition used_point (fallback xyz : point) : point :=
  if is_invalid xyz then fallback else xyz.

(** The transform lines 290-303 build. *)
Definition transform_of (base child : string) (st : Camera) (xyz : point) : TransformStamped :=
  {| stamp := clock_now E (clock_reads st);
     frame_id := base;
     child_frame_id := child;
     translation := remap (used_point (prev_xyz st) xyz);
     rotation := identity_rotation |}.

(** What a timer tick leaves as it is: the configuration, the flag, the
    buffers and the capacity of every history; and the histories
    themselves while the flag is false. *)
Definition stable (st0 st : Camera) : Prop :=
  crop st = crop st0
  /\ clipping_distance st = clipping_distance st0
  /\ update_colors st = update_colors st0
  /\ color_image (cv2_client st) = color_image (cv2_client st0)
  /\ depth_image (cv2_client st) = depth_image (cv2_client st0)
  /\ camera_intrinsics (cv2_client st) = camera_intrinsics (cv2_client st0)
  /\ map (@length (Z * Z)) (histories st) = map (@length (Z * Z)) (histories st0)
  /\ (update_colors st0 = false -> histories st = histories st0).

(** [img] is the depth-gated image of the buffers of [st0] with the circles
    and names of lines 210-229, drawn at the medians of the histories of a
    state [st1] of the same tick, and the rectangle of line 230. *)
Definition annotated_copy (st0 : Camera) (img : image pixel) : Prop :=
  exists bg ann st1,
    stable st0 st1
    /\ gated st0 = Ok bg
    /\ annotate (keys (COLORS E)) bg st1 = (Ok ann, st1, [])
    /\ img = cv2_rectangle E ann (fst (crop st0)) (snd (crop st0)).

(** What one iteration of the loop of a tick that started in [st0] does for
    [color] when it completes: from a state [st1] that is [stable] with
    respect to [st0] (the state after the history update) the smoothed
    centroid [mc] is deprojected to [xyz] and one transform is sent, after
    the annotated image if the mask of the colour has an "on" pixel. *)
Definition color_step (st0 : Camera) (color : string) (ev : list event) : Prop :=
  exists hsv idx st1 mc xyz pre,
    dict_get (COLORS_HSV E) color = Ok hsv
    /\ dict_get (COLORS E) color = Ok idx
    /\ stable st0 st1
    /\ rbind (getitem (histories st1) idx) median_centroid = Ok mc
    /\ get_3d_coordinates_at_pixel E (cv2_client st1) (fst mc) (snd mc) (frame_name color)
       = Ok xyz
    /\ ev = pre ++ [SendTransform (transform_of base_frame_name (frame_name color) st1 xyz)]
    /\ ((mask_on st0 color = true /\ exists img, annotated_copy st0 img
                                                /\ pre = [PublishImage img])
        \/ (mask_on st0 color = false /\ pre = [])).

(** The transform a tick that started in [st0] sends for [color]. *)
Definition frame_sent (st0 : Camera) (color : string) (t : TransformStamped) : Prop :=
  exists idx st1 mc xyz,
    dict_get (COLORS E) color = Ok idx
    /\ stable st0 st1
    /\ rbind (getitem (histories st1) idx) median_centroid = Ok mc
    /\ get_3d_coordinates_at_pixel E (cv2_client st1) (fst mc) (snd mc) (frame_name color)
       = Ok xyz
    /\ t = transform_of base_frame_name (frame_name color) st1 xyz.

(** The fallback point of [s] is the one of [st0], or a point that some
    deprojection returned and that passed the validity test. *)
Definition fallback_from (st0 s : Camera) : Prop :=
  prev_xyz s = prev_xyz st0
  \/ exists c x y frame xyz,
       get_3d_coordinates_at_pixel E c x y frame = Ok xyz
       /\ is_invalid xyz = false /\ prev_xyz s = xyz.

(** A method keeps a property of the state, however it ends. *)
Definition keeps {A : Type} (P : Camera -> Prop) (m : M A) : Prop :=
  forall st, P st -> wp m (fun _ st' _ => P st') st.

(** The flag after the toggles among the requests, and the buffers after
    the messages among them. *)
Fixpoint toggled (rs : list request) (b : bool) : bool :=
  match rs with
  | [] => b
  | Toggle :: rs' => toggled rs' (negb b)
  | _ :: rs' => toggled rs' b
  end.

Fixpoint latest_color (rs : list request) (img : image pixel) : image pixel :=
  match rs with
  | [] => img
  | ColorMsg img' :: rs' => latest_color rs' img'
  | _ :: rs' => latest_color rs' img
  end.

Fixpoint latest_depth (rs : list request) (img : image Z) : image Z :=
  match rs with
  | [] => img
  | DepthMsg img' :: rs' => latest_depth rs' img'
  | _ :: rs' => latest_depth rs' img
  end.

Fixpoint latest_intrinsics (rs : list request) (k : list float) : list float :=
  match rs with
  | [] => k
  | CameraInfoMsg k' :: rs' => latest_intrinsics rs' k'
  | _ :: rs' => latest_intrinsics rs' k
  end.

Definition is_color_msg (q : request) : bool :=
  match q with ColorMsg _ => true | _ => false end.

Definition is_depth_msg (q : request) : bool :=
  match q with DepthMsg _ => true | _ => false end.

(** The centroid find_color_centroid returns when it returns, read off the
    buffers and the rectangle. *)
Definition centroid_of (lower_HSV higher_HSV : bounds) (st : Camera) : result (Z * Z) :=
  rbind (mask_of lower_HSV higher_HSV st) (fun mask =>
    Ok (if np_any mask then cropped_centroid mask st else not_found)).

(** The colour [k] has the index [idx] in [COLORS]. *)
Definition uses_index (idx : nat) (k : string) : bool :=
  match dict_get (COLORS E) k with
  | Ok i => Nat.eqb i idx
  | Err _ => false
  end.

(** The transforms and the images among emitted messages. *)
Definition transforms (evs : list event) : list TransformStamped :=
  flat_map (fun e => match e with SendTransform t => [t] | PublishImage _ => [] end) evs.

Definition images (evs : list event) : list (image pixel) :=
  flat_map (fun e => match e with SendTransform _ => [] | PublishImage img => [img] end) evs.

(** The transforms [ts] of a completed run of the loop of a tick over
    [colors] that starts in [s] and ends in [s'].  For the first colour the
    centroid [c] is found in [s], the history update gives the state [u],
    the median [mc] of the history of [u] is deprojected to [xyz], and the
    iteration sends the transform [t] after the messages [pre] of
    find_color_centroid; the translation of [t] is made of [xyz], or of the
    fallback point of [s] when [xyz] is invalid.  The iteration ends in
    [s_next], whose fallback point is the point that was used, and the rest
    of the loop runs from [s_next]. *)
Fixpoint frames_served (colors : list string) (s : Camera)
  (ts : list TransformStamped) (s' : Camera) : Prop :=
  match colors, ts with
  | [], [] => s' = s
  | color :: colors', t :: ts' =>
      exists hsv idx c pre u mc xyz x y z s_next,
        dict_get (COLORS_HSV E) color = Ok hsv
        /\ dict_get (COLORS E) color = Ok idx
        /\ find_color_centroid (fst hsv) (snd hsv) s = (Ok c, s, pre)
        /\ update_history idx c s = (Ok tt, u, [])
        /\ rbind (getitem (histories u) idx) median_centroid = Ok mc
        /\ get_3d_coordinates_at_pixel E (cv2_client u) (fst mc) (snd mc)
             (color ++ "_frame")%string = Ok xyz
        /\ (if is_invalid xyz then prev_xyz s else xyz) = (x, y, z)
        /\ tick_body color s = (Ok tt, s_next, pre ++ [SendTransform t])
        /\ transforms pre = []
        /\ frame_id t = "camera_depth_frame"%string
        /\ child_frame_id t = (color ++ "_frame")%string
        /\ translation t = (z, PrimFloat.opp x, PrimFloat.opp y)
        /\ rotation t = (0%float, 0%float, 0%float, 1%float)
        /\ prev_xyz s_next = (x, y, z)
        /\ frames_served colors' s_next ts' s'
  | _, _ => False
  end.

End Model.

Arguments OpenCVClient : clear implicits.
Arguments Camera : clear implicits.
Arguments Env : clear implicits.
Arguments M : clear implicits.
Arguments transforms : simpl nomatch.

(** ** A concrete configuration, used to run the model *)

Module Demo.

(** Two colours; RED has two hue ranges. *)
Definition colors : list (string * nat) := [("RED"%string, 0%nat); ("BLUE"%string, 1%nat)].

Definition red_lo : bounds := Bounds2 (0, 100, 100) (170, 100, 100).
Definition red_hi : bounds := Bounds2 (10, 255, 255) (180, 255, 255).
Definition blue_lo : bounds := Bound (100, 100, 100).
Definition blue_hi : bounds := Bound (130, 255, 255).

Definition colors_hsv : list (string * (bounds * bounds)) :=
  [("RED"%string, (red_lo, red_hi)); ("BLUE"%string, (blue_lo, blue_hi))].

(** The colour conversion after the formula OpenCV documents for 8-bit
    images: V the largest channel, S = 255 (V - min) / V, H half the hue
    angle in degrees, each rounded to the nearest integer. *)
Definition round_div (a b : Z) : Z := (2 * a + b) / (2 * b).

Definition cvt (p : pixel) : pixel :=
  let '(b, g, r) := p in
  let v := Z.max r (Z.max g b) in
  let diff := v - Z.min r (Z.min g b) in
  let s := if v =? 0 then 0 else round_div (255 * diff) v in
  let angle :=
    if v =? r then 60 * (g - b)
    else if v =? g then 120 * diff + 60 * (b - r)
    else 240 * diff + 60 * (r - g) in
  let angle := if angle <? 0 then angle + 360 * diff else angle in
  let h := if diff =? 0 then 0 else round_div angle (2 * diff) in
  (h, s, v).

(** Stand-ins for the drawing functions: the circle marks its centre, the
    text and the rectangle leave the image as it is. *)
Definition mark (img : image pixel) (c : Z * Z) : image pixel :=
  match nth_error img (Z.to_nat (snd c)) with
  | Some row => setitem img (Z.to_nat (snd c)) (setitem row (Z.to_nat (fst c)) (0, 0, 255))
  | None => img
  end.

(** The float of an integer (exact below 2^53). *)
Fixpoint f_of_pos (p : positive) : float :=
  match p with
  | xH => 1%float
  | xO p' => PrimFloat.mul 2%float (f_of_pos p')
  | xI p' => PrimFloat.add (PrimFloat.mul 2%float (f_of_pos p')) 1%float
  end.

Definition f_of_Z (z : Z) : float :=
  match z with
  | Z0 => 0%float
  | Zpos p => f_of_pos p
  | Zneg p => PrimFloat.opp (f_of_pos p)
  end.

(** Modelled from the spec: [OpenCVClient.get_3d_coordinates_at_pixel] is
    in [mole_detection.py], which is not among the sources.  The spec's
    Deprojector (4.5), here with focal lengths 2 and principal point (1, 1):
    Z the depth at the pixel, X = (px - cx) Z / fx, Y = (py - cy) Z / fy, and
    the sentinel when the pixel is the "not found" sentinel or the depth is
    zero or missing. *)
Definition deproject (c : OpenCVClient unit) (px py : Z) (frame : string) : result point :=
  if (px =? -1) || (py =? -1) then Ok ((-1)%float, (-1)%float, (-1)%float)
  else
    match at_px (depth_image c) (Z.to_nat py) (Z.to_nat px) with
    | None => Ok ((-1)%float, (-1)%float, (-1)%float)
    | Some d =>
        if d =? 0 then Ok ((-1)%float, (-1)%float, (-1)%float)
        else
          let z := f_of_Z d in
          Ok (PrimFloat.div (PrimFloat.mul (f_of_Z (px - 1)) z) 2%float,
              PrimFloat.div (PrimFloat.mul (f_of_Z (py - 1)) z) 2%float,
              z)
    end.

Definition env : Env unit :=
  {| COLORS := colors;
     COLORS_HSV := colors_hsv;
     cvtColor_BGR2HSV := cvt;
     cv2_circle := mark;
     cv2_putText := fun img _ _ => img;
     cv2_rectangle := fun img _ _ => img;
     get_3d_coordinates_at_pixel := deproject;
     detect_illumination := fun _ _ => (Ok tt, tt);
     clock_now := Z.of_nat |}.

(** A 3x3 scene: one blue pixel at column 1, row 2; every pixel in range
    except the top row, which has no depth. *)
Definition blue : pixel := (255, 0, 0).
Definition red : pixel := (0, 0, 255).
Definition grey : pixel := (128, 128, 128).

Definition scene : image pixel :=
  [[grey; grey; grey]; [grey; grey; grey]; [grey; blue; grey]].

Definition depth : image Z :=
  [[0; 0; 0]; [500; 500; 500]; [500; 500; 2000]].

(** The same scene with a red pixel beside the blue one. *)
Definition scene2 : image pixel :=
  [[grey; grey; grey]; [grey; grey; grey]; [red; blue; grey]].

Definition depth2 : image Z :=
  [[0; 0; 0]; [500; 500; 500]; [500; 500; 500]].

Definition client (color_img : image pixel) (depth_img : image Z)
  (ra : list (list (Z * Z))) : OpenCVClient unit :=
  {| color_image := color_img; depth_image := depth_img;
     camera_intrinsics := [2%float; 0%float; 1%float; 0%float; 2%float; 1%float;
                           0%float; 0%float; 1%float];
     running_avg := ra; illumination := tt |}.

Definition zeros3 : list (Z * Z) := [(0, 0); (0, 0); (0, 0)].

Definition node (color_img : image pixel) (depth_img : image Z)
  (ra : list (list (Z * Z))) (enabled : bool) : Camera unit :=
  {| crop := ((0, 0), (3, 3));
     clipping_distance := 1400;
     prev_xyz := (0%float, 0%float, 0%float);
     cv2_client := client color_img depth_img ra;
     update_colors := enabled;
     clock_reads := 0 |}.

(** The node before any image arrived. *)
Definition fresh : Camera unit := node [] [] [zeros3; zeros3] true.

(** The node looking at the scene: BLUE is seen, RED is not. *)
Definition watching : Camera unit := node scene depth [zeros3; zeros3] true.

(** The node looking at the scene with both colours. *)
Definition two_colours : Camera unit := node scene2 depth2 [zeros3; zeros3] true.

(** The node with a one-column colour image and a depth image of three
    rows without a column. *)
Definition no_columns : Camera unit :=
  node [[grey]; [grey]; [grey]] [[]; []; []] [zeros3; zeros3] true.

(** The node looking at a scene with neither colour. *)
Definition nothing : Camera unit :=
  node [[grey; grey; grey]; [grey; grey; grey]; [grey; grey; grey]] depth2
       [zeros3; zeros3] true.

(** The node looking at the scene through a rectangle that holds the top
    left pixel only. *)
Definition outside_roi : Camera unit :=
  {| crop := ((0, 0), (1, 1));
     clipping_distance := 1400;
     prev_xyz := (0%float, 0%float, 0%float);
     cv2_client := client scene depth [zeros3; zeros3];
     update_colors := true;
     clock_reads := 0 |}.

(** The mask of BLUE in the scene. *)
Definition blue_mask : image Z := [[0; 0; 0]; [0; 0; 0]; [0; 255; 0]].

(** A history of ten samples: five from the start, five detections at
    pixel (3, 3). *)
Definition h10 : list (Z * Z) :=
  [(0, 0); (0, 0); (0, 0); (0, 0); (0, 0); (3, 3); (3, 3); (3, 3); (3, 3); (3, 3)].

(** The node with that history for BLUE, the flag off. *)
Definition half_filled : Camera unit := node scene depth [h10; h10] false.

(** The node looking at a surface at depth 2: the pixel of column 0 and
    row 2 deprojects to (-1, 1, 2). *)
Definition near : Camera unit :=
  node scene [[2; 2; 2]; [2; 2; 2]; [2; 2; 2]] [zeros3; zeros3] true.

(** The node with a depth image of two rows against the scene of three. *)
Definition mismatched : Camera unit :=
  node scene [[500; 500; 500]; [500; 500; 500]] [zeros3; zeros3] true.

(** A history with two outliers among five samples. *)
Definition noisy : list (Z * Z) := [(5, 7); (100, 3); (5, 7); (5, 7); (-1, -1)].

(** The configuration with a deprojector that raises for the BLUE frame. *)
Definition env_raising : Env unit :=
  {| COLORS := colors;
     COLORS_HSV := colors_hsv;
     cvtColor_BGR2HSV := cvt;
     cv2_circle := mark;
     cv2_putText := fun img _ _ => img;
     cv2_rectangle := fun img _ _ => img;
     get_3d_coordinates_at_pixel :=
       fun c px py frame =>
         if String.eqb frame "BLUE_frame" then Err (Raised 0)
         else deproject c px py frame;
     detect_illumination := fun _ _ => (Ok tt, tt);
     clock_now := Z.of_nat |}.

(** Requests of every kind. *)
Definition traffic : list request :=
  [Toggle; DepthMsg depth2; Tick; ColorMsg scene2; Tick; Toggle; Toggle].

End Demo.

(** * Properties *)

(** ** Arrays *)

Lemma zip_with_pointwise {A B C : Type} (f : A -> B -> result C) (g : A -> B -> C) :
  forall xs ys,
    Forall2 (fun x y => f x y = Ok (g x y)) xs ys ->
    zip_with f xs ys = Ok (map (fun xy => g (fst xy) (snd xy)) (combine xs ys)).
Proof.
  induction 1 as [|x y xs ys Hxy _ IH]; simpl.
  - reflexivity.
  - rewrite Hxy. simpl. rewrite IH. reflexivity.
Qed.

Lemma broadcast_axis_same_length {A B C : Type} (f : A -> B -> result C) xs ys :
  length xs = length ys -> broadcast_axis f xs ys = zip_with f xs ys.
Proof.
  intros H. unfold broadcast_axis. rewrite H, Nat.eqb_refl. reflexivity.
Qed.

Lemma nth_error_map2 {A B C : Type} (g : A -> B -> C) :
  forall xs ys n x y,
    nth_error xs n = Some x -> nth_error ys n = Some y ->
    nth_error (map (fun xy => g (fst xy) (snd xy)) (combine xs ys)) n = Some (g x y).
Proof.
  induction xs as [|x0 xs IH]; intros ys n x y Hx Hy.
  - destruct n; discriminate.
  - destruct ys as [|y0 ys]; [destruct n; discriminate|].
    destruct n as [|n]; simpl in *.
    + congruence.
    + eauto.
Qed.

Lemma forallb_pointwise {A : Type} (f g : A -> bool) (l : list A) :
  (forall x, f x = g x) -> forallb f l = forallb g l.
Proof.
  intros H. induction l as [|x l IH]; simpl; [reflexivity|].
  rewrite H, IH. reflexivity.
Qed.

Lemma Forall2_of_length {A B : Type} (R : A -> B -> Prop) :
  (forall x y, R x y) ->
  forall xs ys, length xs = length ys -> Forall2 R xs ys.
Proof.
  intros HR. induction xs as [|x xs IH]; intros [|y ys] Hlen;
    simpl in Hlen; try discriminate; constructor; auto.
Qed.





(** ** Sorting and the median *)

Lemma insert_sorted_In (x a : Z) (l : list Z) :
  In a (insert_sorted x l) <-> a = x \/ In a l.
Proof.
  induction l as [|y l IH]; simpl.
  - intuition.
  - destruct (x <=? y); simpl; rewrite ?IH; intuition.
Qed.

Lemma sort_In (a : Z) (l : list Z) : In a (sort l) <-> In a l.
Proof.
  induction l as [|x l IH]; simpl.
  - reflexivity.
  - rewrite insert_sorted_In, IH. intuition.
Qed.

Lemma insert_sorted_length (x : Z) (l : list Z) :
  length (insert_sorted x l) = S (length l).
Proof.
  induction l as [|y l IH]; simpl; [reflexivity|].
  destruct (x <=? y); simpl; rewrite ?IH; reflexivity.
Qed.

Lemma sort_length (l : list Z) : length (sort l) = length l.
Proof.
  induction l as [|x l IH]; simpl; [reflexivity|].
  rewrite insert_sorted_length, IH. reflexivity.
Qed.

Lemma insert_sorted_perm (x : Z) (l : list Z) :
  Permutation (x :: l) (insert_sorted x l).
Proof.
  induction l as [|y l IH]; simpl; [reflexivity|].
  destruct (x <=? y); [reflexivity|].
  rewrite perm_swap. apply perm_skip. exact IH.
Qed.

Lemma sort_perm (l : list Z) : Permutation l (sort l).
Proof.
  induction l as [|x l IH]; simpl; [constructor|].
  rewrite <- insert_sorted_perm. apply perm_skip. exact IH.
Qed.

Lemma insert_sorted_HdRel (x a : Z) (l : list Z) :
  a <= x -> HdRel Z.le a l -> HdRel Z.le a (insert_sorted x l).
Proof.
  intros Hax Hl. destruct l as [|y l]; simpl.
  - constructor. exact Hax.
  - destruct (x <=? y); constructor; [exact Hax|].
    inversion Hl; assumption.
Qed.

Lemma insert_sorted_Sorted (x : Z) (l : list Z) :
  Sorted Z.le l -> Sorted Z.le (insert_sorted x l).
Proof.
  induction 1 as [|y l Hs IH Hhd]; simpl.
  - repeat constructor.
  - destruct (x <=? y) eqn:C.
    + apply Z.leb_le in C. repeat constructor; assumption.
    + apply Z.leb_gt in C. constructor; [exact IH|].
      apply insert_sorted_HdRel; [lia|exact Hhd].
Qed.

(** [sort] sorts: the median below is taken in a sorted rearrangement of the
    history. *)
Lemma sort_Sorted (l : list Z) : Sorted Z.le (sort l).
Proof.
  induction l as [|x l IH]; simpl; [constructor|].
  apply insert_sorted_Sorted. exact IH.
Qed.

Lemma fold_min_le (d a : Z) (l : list Z) :
  In a l -> fold_right Z.min d l <= a.
Proof.
  induction l as [|x l IH]; simpl; [tauto|].
  intros [->|H]; [lia|]. specialize (IH H). lia.
Qed.

Lemma fold_max_ge (d a : Z) (l : list Z) :
  In a l -> a <= fold_right Z.max d l.
Proof.
  induction l as [|x l IH]; simpl; [tauto|].
  intros [->|H]; [lia|]. specialize (IH H). lia.
Qed.

Lemma list_min_max_In (a : Z) (l : list Z) :
  In a l -> list_min l <= a <= list_max l.
Proof.
  intros H. split; [apply fold_min_le|apply fold_max_ge]; exact H.
Qed.

Lemma nth_sort_bounds (l : list Z) (n : nat) :
  (n < length l)%nat -> list_min l <= nth n (sort l) 0 <= list_max l.
Proof.
  intros H. apply list_min_max_In, sort_In, nth_In.
  rewrite sort_length. exact H.
Qed.

Lemma py_int_inject_Z (z : Z) : py_int (inject_Z z) = z.
Proof. unfold py_int, inject_Z. simpl. apply Z.quot_1_r. Qed.

Lemma py_int_half_bounds (lo hi a b : Z) :
  lo <= a <= hi -> lo <= b <= hi -> lo <= py_int (Qmake (a + b) 2) <= hi.
Proof.
  intros Ha Hb. unfold py_int. simpl.
  Z.to_euclidean_division_equations. lia.
Qed.

Lemma np_median_bounds (l : list Z) (q : Q) :
  np_median l = Ok q -> list_min l <= py_int q <= list_max l.
Proof.
  unfold np_median. destruct (length l) as [|n] eqn:Hlen; [discriminate|].
  assert (Hpos : (0 < length l)%nat) by lia.
  rewrite <- Hlen.
  assert (Hhalf : (length l / 2 < length l)%nat)
    by (apply Nat.div_lt; lia).
  destruct (Nat.odd (length l)); intros H; injection H as <-.
  - rewrite py_int_inject_Z. apply nth_sort_bounds. exact Hhalf.
  - apply py_int_half_bounds; apply nth_sort_bounds; [|exact Hhalf].
    eapply Nat.le_lt_trans; [apply Nat.le_sub_l|exact Hhalf].
Qed.

(** On a history of odd length the median is one of the samples, and the
    cast leaves it as it is. *)
Lemma np_median_odd (l : list Z) (q : Q) :
  Nat.odd (length l) = true -> np_median l = Ok q -> inject_Z (py_int q) = q.
Proof.
  unfold np_median. intros Hodd.
  destruct (length l) as [|n] eqn:Hlen; [discriminate|].
  rewrite Hodd. intros H. injection H as <-. rewrite py_int_inject_Z. reflexivity.
Qed.

Lemma np_median_total (l : list Z) :
  l <> [] -> exists q, np_median l = Ok q.
Proof.
  intros H. unfold np_median. destruct l as [|x l]; [congruence|].
  simpl length. destruct (Nat.odd (S (length l))); eexists; reflexivity.
Qed.

Lemma median_centroid_total (h : list (Z * Z)) :
  h <> [] -> exists c, median_centroid h = Ok c.
Proof.
  intros H. unfold median_centroid.
  destruct (np_median_total (map fst h)) as [mx Hx];
    [destruct h; [congruence|discriminate]|].
  destruct (np_median_total (map snd h)) as [my Hy];
    [destruct h; [congruence|discriminate]|].
  rewrite Hx, Hy. simpl. eexists; reflexivity.
Qed.

(** The emitted centroid is, axis by axis, the truncated median, and it
    lies between the smallest and the largest sample of that axis. *)
Lemma median_centroid_spec (h : list (Z * Z)) (c : Z * Z) :
  median_centroid h = Ok c ->
  exists mx my,
    np_median (map fst h) = Ok mx /\ np_median (map snd h) = Ok my
    /\ c = (py_int mx, py_int my)
    /\ list_min (map fst h) <= fst c <= list_max (map fst h)
    /\ list_min (map snd h) <= snd c <= list_max (map snd h).
Proof.
  unfold median_centroid. intros H.
  destruct (np_median (map fst h)) as [mx|] eqn:Hx; [|discriminate].
  destruct (np_median (map snd h)) as [my|] eqn:Hy; [|discriminate].
  simpl in H. injection H as <-. exists mx, my.
  repeat split; try (apply np_median_bounds; assumption).
Qed.

(** ** Runs of the node's methods *)

Section Properties.

Context {Illum : Type} (E : Env Illum).

Implicit Types (st : Camera Illum) (evs : list event).

Lemma wp_run {A : Type} (m : M Illum A) Q st r st' evs :
  m st = (r, st', evs) -> wp m Q st -> Q r st' evs.
Proof. unfold wp. intros ->. auto. Qed.

Lemma wp_intro {A : Type} (m : M Illum A) (Q : result A -> Camera Illum -> list event -> Prop) st :
  (forall r st' evs, m st = (r, st', evs) -> Q r st' evs) -> wp m Q st.
Proof. unfold wp. intros H. destruct (m st) as [[r st'] evs]. auto. Qed.

Lemma wp_conseq {A : Type} (m : M Illum A)
  (Q Q' : result A -> Camera Illum -> list event -> Prop) st :
  (forall r st' evs, Q r st' evs -> Q' r st' evs) -> wp m Q st -> wp m Q' st.
Proof. unfold wp. destruct (m st) as [[r st'] evs]. auto. Qed.

Lemma wp_bind {A B : Type} (m : M Illum A) (f : A -> M Illum B)
  (Q : result B -> Camera Illum -> list event -> Prop) st :
  wp m (fun r st1 ev1 =>
          match r with
          | Ok a => wp (f a) (fun r2 st2 ev2 => Q r2 st2 (ev1 ++ ev2)) st1
          | Err e => Q (Err e) st1 ev1
          end) st ->
  wp (bind m f) Q st.
Proof.
  unfold wp, bind. destruct (m st) as [[[a|e] st1] ev1]; [|auto].
  destruct (f a st1) as [[r2 st2] ev2]. auto.
Qed.

(** A property of the state that every iteration keeps is kept by the
    loop, however it ends. *)
Lemma wp_for_each_keeps {A : Type} (P : Camera Illum -> Prop) (body : A -> M Illum unit) :
  (forall x st, P st -> wp (body x) (fun _ st' _ => P st') st) ->
  forall xs st, P st -> wp (for_each xs body) (fun _ st' _ => P st') st.
Proof.
  intros Hbody. induction xs as [|x xs IH]; intros st HP; simpl.
  - exact HP.
  - apply wp_bind. eapply wp_conseq; [|apply Hbody; exact HP].
    intros [[]|e] st1 ev1 HP1; [|exact HP1].
    apply IH. exact HP1.
Qed.

(** A loop whose iterations all complete, each adding its messages [R x]
    under an invariant [P] of the state. *)
Lemma wp_for_each_all {A : Type} (P : Camera Illum -> Prop)
  (R : A -> list event -> Prop) (body : A -> M Illum unit) (xs : list A) :
  (forall x st, In x xs -> P st ->
     wp (body x) (fun r st' ev => r = Ok tt /\ P st' /\ R x ev) st) ->
  forall st, P st ->
    wp (for_each xs body)
       (fun r st' evs => r = Ok tt /\ P st'
                         /\ exists evss, evs = concat evss /\ Forall2 R xs evss) st.
Proof.
  induction xs as [|x xs IH]; intros Hbody st HP; simpl.
  - unfold wp, ret. repeat split; [exact HP|]. exists []. split; constructor.
  - apply wp_bind. eapply wp_conseq; [|apply Hbody; [left; reflexivity|exact HP]].
    intros r st1 ev1 (-> & HP1 & HR).
    eapply wp_conseq; [|apply IH; [|exact HP1]].
    + intros r2 st2 ev2 (-> & HP2 & evss & -> & HF).
      repeat split; [exact HP2|]. exists (ev1 :: evss). split; [reflexivity|].
      constructor; assumption.
    + intros y s Hy. apply Hbody. right. exact Hy.
Qed.

(** The same for a loop that returned without raising. *)
Lemma for_each_completed {A : Type} (P : Camera Illum -> Prop)
  (R : A -> list event -> Prop) (body : A -> M Illum unit) :
  (forall x st, P st ->
     wp (body x) (fun r st' ev => P st' /\ (r = Ok tt -> R x ev)) st) ->
  forall xs st, P st ->
    wp (for_each xs body)
       (fun r st' evs => P st'
          /\ (r = Ok tt -> exists evss, evs = concat evss /\ Forall2 R xs evss)) st.
Proof.
  intros Hbody. induction xs as [|x xs IH]; intros st HP; simpl.
  - unfold wp, ret. split; [exact HP|]. intros _. exists []. split; constructor.
  - apply wp_bind. eapply wp_conseq; [|apply Hbody; exact HP].
    intros [[]|e] st1 ev1 (HP1 & HR).
    + eapply wp_conseq; [|apply IH; exact HP1].
      intros r2 st2 ev2 (HP2 & HF). split; [exact HP2|].
      intros Hr. destruct (HF Hr) as (evss & -> & HF2).
      exists (ev1 :: evss). split; [reflexivity|]. constructor; auto.
    + split; [exact HP1|discriminate].
Qed.

Lemma annotate_keeps (cs : list string) :
  forall img st, wp (annotate E cs img) (fun _ st' evs => st' = st /\ evs = []) st.
Proof.
  induction cs as [|color cs IH]; intros img st; simpl.
  - unfold wp, ret. auto.
  - unfold wp, bind, lift, get.
    destruct (dict_get (COLORS E) color) as [idx|e]; [|auto].
    destruct (getitem (running_avg (cv2_client st)) idx) as [h|e]; [|auto].
    destruct (median_centroid h) as [c|e]; [|auto].
    specialize (IH (cv2_putText E (cv2_circle E img c) color c) st).
    unfold wp in IH.
    destruct (annotate E cs _ st) as [[r st'] evs]. destruct IH as [-> ->]. auto.
Qed.

Lemma annotate_total (cs : list string) :
  forall img st,
    forallb (history_ok E st) cs = true ->
    exists img', annotate E cs img st = (Ok img', st, []).
Proof.
  induction cs as [|color cs IH]; intros img st H; simpl in *.
  - eexists; reflexivity.
  - apply andb_true_iff in H as [Hc Hcs]. unfold history_ok, histories in Hc.
    unfold bind, lift, get.
    destruct (dict_get (COLORS E) color) as [idx|e]; [|discriminate].
    destruct (getitem (running_avg (cv2_client st)) idx) as [[|a h]|e]; try discriminate.
    destruct (median_centroid_total (a :: h)) as [c Hc']; [discriminate|].
    rewrite Hc'.
    destruct (IH (cv2_putText E (cv2_circle E img c) color c) st Hcs) as [img' ->].
    eexists; reflexivity.
Qed.

Lemma annotate_raises (cs : list string) img st e st' evs :
  annotate E cs img st = (Err e, st', evs) ->
  forallb (history_ok E st) cs = false.
Proof.
  intros H. destruct (forallb (history_ok E st) cs) eqn:F; [|reflexivity].
  destruct (annotate_total cs img st F) as [img' H']. congruence.
Qed.

(** find_color_centroid leaves the node as it is; what it returns and
    publishes is read off the mask. *)
Lemma find_color_centroid_spec (lo hi : bounds) st :
  wp (find_color_centroid E lo hi)
     (fun r st' evs =>
        st' = st
        /\ match mask_of E lo hi st with
           | Err e => r = Err e /\ evs = []
           | Ok mask =>
               if np_any mask then
                 (exists bg img,
                     gated st = Ok bg
                     /\ annotate E (keys (COLORS E)) bg st = (Ok img, st, [])
                     /\ r = Ok (cropped_centroid mask st)
                     /\ evs = [PublishImage
                                 (cv2_rectangle E img (fst (crop st)) (snd (crop st)))])
                 \/ (exists e, r = Err e /\ evs = []
                               /\ forallb (history_ok E st) (keys (COLORS E)) = false)
               else r = Ok not_found /\ evs = []
           end) st.
Proof.
  unfold wp, find_color_centroid, mask_of, bind, lift, get.
  destruct (gated st) as [bg|e]; simpl; [|auto].
  destruct (segment (cvtColor_BGR2HSV E) lo hi bg) as [mask|e]; simpl; [|auto].
  destruct (np_any mask); simpl; [|unfold ret; auto].
  pose proof (annotate_keeps (keys (COLORS E)) bg st) as Hk. unfold wp in Hk.
  destruct (annotate E (keys (COLORS E)) bg st) as [[[img|e] st1] ev1] eqn:Ha;
    destruct Hk as [-> ->].
  - unfold emit, ret. simpl. split; [reflexivity|]. left. exists bg, img. auto.
  - split; [reflexivity|]. right. exists e. repeat split.
    eapply annotate_raises; eassumption.
Qed.

(** Lines 157-162 as one equation. *)
Lemma update_history_run (idx : nat) (c : Z * Z) st :
  update_history idx c st =
  if centroid_nonzero c && update_colors st then
    match getitem (histories st) idx with
    | Ok h =>
        match shift h c with
        | Ok h' =>
            (Ok tt, with_client (set_running_avg (setitem (histories st) idx h')) st, [])
        | Err e => (Err e, st, [])
        end
    | Err e => (Err e, st, [])
    end
  else (Ok tt, st, []).
Proof.
  unfold update_history, histories, bind, lift, get, modify, ret.
  destruct (centroid_nonzero c && update_colors st); [|reflexivity].
  destruct (getitem (running_avg (cv2_client st)) idx) as [h|e]; [|reflexivity].
  destruct (shift h c); reflexivity.
Qed.

(** Lines 164-165 as one equation. *)
Lemma smoothed_run (idx : nat) st :
  smoothed idx st = (rbind (getitem (histories st) idx) median_centroid, st, []).
Proof.
  unfold smoothed, histories, bind, lift, get.
  destruct (getitem (running_avg (cv2_client st)) idx) as [h|e]; [|reflexivity].
  simpl. destruct (median_centroid h); reflexivity.
Qed.

(** broadcast_color_frame as one equation. *)
Lemma broadcast_color_frame_run (base child : string) (x_c y_c : Z) st :
  broadcast_color_frame E base child x_c y_c st =
  match get_3d_coordinates_at_pixel E (cv2_client st) x_c y_c child with
  | Err e => (Err e, st, [])
  | Ok xyz =>
      (Ok tt,
       tick_clock (if is_invalid xyz then st else set_prev_xyz xyz st),
       [SendTransform (transform_of E base child st xyz)])
  end.
Proof.
  unfold broadcast_color_frame, transform_of, used_point, bind, lift, get, modify, emit, ret.
  destruct (get_3d_coordinates_at_pixel E (cv2_client st) x_c y_c child) as [xyz|e];
    [|reflexivity].
  destruct (is_invalid xyz); reflexivity.
Qed.

(** *** What the methods leave unchanged *)

Lemma stable_refl st : stable st st.
Proof. unfold stable. intuition. Qed.

Lemma stable_trans st0 st1 st2 : stable st0 st1 -> stable st1 st2 -> stable st0 st2.
Proof.
  unfold stable. intros (A1 & A2 & A3 & A4 & A5 & A6 & A7 & A8)
    (B1 & B2 & B3 & B4 & B5 & B6 & B7 & B8).
  repeat split; try congruence.
  intros F. rewrite B8, A8; congruence.
Qed.

Lemma keeps_lift {A : Type} (P : Camera Illum -> Prop) (r : result A) : keeps P (lift r).
Proof. intros st H. exact H. Qed.

Lemma keeps_bind {A B : Type} (P : Camera Illum -> Prop) (m : M Illum A) (f : A -> M Illum B) :
  keeps P m -> (forall a, keeps P (f a)) -> keeps P (bind m f).
Proof.
  intros Hm Hf st H. apply wp_bind. eapply wp_conseq; [|apply Hm; exact H].
  intros [a|e] st1 ev1 H1; [|exact H1]. apply Hf. exact H1.
Qed.

Lemma keeps_for_each {A : Type} (P : Camera Illum -> Prop) (body : A -> M Illum unit) xs :
  (forall x, keeps P (body x)) -> keeps P (for_each xs body).
Proof. intros Hb st H. apply wp_for_each_keeps; auto. Qed.

(** A method that moves every state to a [stable] one keeps [stable st0]. *)
Lemma keeps_stable {A : Type} (m : M Illum A) st0 :
  (forall st, wp m (fun _ st' _ => stable st st') st) -> keeps (stable st0) m.
Proof.
  intros Hm st H. eapply wp_conseq; [|apply Hm].
  intros r st' evs H'. eapply stable_trans; eassumption.
Qed.

Lemma setitem_map_length {A : Type} (arr : list (list A)) :
  forall i h h',
    nth_error arr i = Some h -> length h' = length h ->
    map (@length A) (setitem arr i h') = map (@length A) arr.
Proof.
  induction arr as [|a arr IH]; intros [|i] h h' Hn Hl; simpl in *; try discriminate.
  - injection Hn as ->. rewrite Hl. reflexivity.
  - f_equal. eapply IH; eassumption.
Qed.

Lemma getitem_setitem_same {A : Type} (arr : list A) :
  forall i a v, nth_error arr i = Some a -> getitem (setitem arr i v) i = Ok v.
Proof.
  unfold getitem.
  induction arr as [|a0 arr IH]; intros [|i] a v Hn; simpl in *; try discriminate.
  - reflexivity.
  - eapply IH; eassumption.
Qed.

Lemma getitem_setitem_other {A : Type} (arr : list A) :
  forall i j v, i <> j -> getitem (setitem arr i v) j = getitem arr j.
Proof.
  unfold getitem.
  induction arr as [|a0 arr IH]; intros [|i] [|j] v Hne; simpl in *;
    try reflexivity; try congruence.
  apply IH. congruence.
Qed.

Lemma getitem_Ok {A : Type} (arr : list A) i a :
  getitem arr i = Ok a <-> nth_error arr i = Some a.
Proof.
  unfold getitem. destruct (nth_error arr i); simpl; split; congruence.
Qed.

Lemma shift_length (h h' : list (Z * Z)) c :
  shift h c = Ok h' -> length h' = length h /\ h' <> [].
Proof.
  destruct h as [|a h]; simpl; [discriminate|]. intros H. injection H as <-.
  rewrite length_app. simpl. split; [lia|]. destruct h; discriminate.
Qed.

Lemma find_color_centroid_same (lo hi : bounds) st :
  wp (find_color_centroid E lo hi) (fun _ st' _ => st' = st) st.
Proof.
  eapply wp_conseq; [|apply find_color_centroid_spec]. simpl. tauto.
Qed.

Lemma update_history_stable (idx : nat) (c : Z * Z) st :
  wp (update_history idx c) (fun _ st' evs => stable st st' /\ evs = []) st.
Proof.
  unfold wp. rewrite update_history_run.
  destruct (centroid_nonzero c && update_colors st) eqn:G;
    [|split; [apply stable_refl|reflexivity]].
  destruct (getitem (histories st) idx) as [h|e] eqn:Hg;
    [|split; [apply stable_refl|reflexivity]].
  destruct (shift h c) as [h'|e] eqn:Hs;
    [|split; [apply stable_refl|reflexivity]].
  split; [|reflexivity].
  apply andb_true_iff in G as [_ G]. apply getitem_Ok in Hg.
  apply shift_length in Hs as [Hl _].
  unfold stable, histories. simpl. repeat split.
  - eapply setitem_map_length; eassumption.
  - congruence.
Qed.

Lemma broadcast_color_frame_stable (base child : string) (x_c y_c : Z) st :
  wp (broadcast_color_frame E base child x_c y_c)
     (fun _ st' _ => stable st st' /\ cv2_client st' = cv2_client st) st.
Proof.
  unfold wp. rewrite broadcast_color_frame_run.
  destruct (get_3d_coordinates_at_pixel E (cv2_client st) x_c y_c child) as [xyz|e];
    [|split; [apply stable_refl|reflexivity]].
  destruct (is_invalid xyz); unfold stable, histories; simpl; intuition.
Qed.

Lemma call_detect_illumination_stable (color : string) st :
  wp (call_detect_illumination E color)
     (fun _ st' evs => stable st st' /\ histories st' = histories st
                       /\ prev_xyz st' = prev_xyz st /\ evs = []) st.
Proof.
  unfold wp, call_detect_illumination.
  destruct (detect_illumination E (cv2_client st) color) as [r il].
  unfold stable, histories. simpl. intuition.
Qed.

Lemma broadcast_color_stable (lo hi : bounds) (color : string) st0 :
  keeps (stable st0) (broadcast_color E lo hi color).
Proof.
  unfold broadcast_color.
  apply keeps_bind; [apply keeps_lift|intros idx].
  apply keeps_bind.
  { apply keeps_stable. intros st. eapply wp_conseq; [|apply find_color_centroid_same].
    simpl. intros r st' evs ->. apply stable_refl. }
  intros c. apply keeps_bind.
  { apply keeps_stable. intros st. eapply wp_conseq; [|apply update_history_stable].
    simpl. tauto. }
  intros _. apply keeps_bind.
  { intros st H. unfold wp. rewrite smoothed_run. exact H. }
  intros mc. apply keeps_stable. intros st.
  eapply wp_conseq; [|apply broadcast_color_frame_stable]. simpl. tauto.
Qed.

Lemma tick_body_stable (color : string) st0 : keeps (stable st0) (tick_body E color).
Proof.
  unfold tick_body.
  apply keeps_bind; [apply keeps_lift|intros hsv].
  apply keeps_bind; [apply broadcast_color_stable|intros _].
  apply keeps_stable. intros st.
  eapply wp_conseq; [|apply call_detect_illumination_stable]. simpl. tauto.
Qed.

Lemma timer_callback_unfold st :
  timer_callback E st =
  if has_images st then for_each (keys (COLORS_HSV E)) (tick_body E) st
  else (Ok tt, st, []).
Proof.
  unfold timer_callback, has_images, bind, get.
  destruct (Nat.eqb (shape0 (color_image (cv2_client st))) 0);
    destruct (Nat.eqb (shape0 (depth_image (cv2_client st))) 0); simpl;
    try reflexivity.
  destruct (for_each (keys (COLORS_HSV E)) (tick_body E) st) as [[r st'] evs].
  reflexivity.
Qed.

(** A timer tick, however it ends, leaves the configuration, the flag, the
    buffers and the capacities as they are, and the histories too while the
    flag is false. *)
Lemma timer_callback_stable st : wp (timer_callback E) (fun _ st' _ => stable st st') st.
Proof.
  unfold wp. rewrite timer_callback_unfold.
  destruct (has_images st); [|apply stable_refl].
  apply (keeps_for_each (stable st) (tick_body E)); [|apply stable_refl].
  intros color. apply tick_body_stable.
Qed.

(** *** What [stable] states share *)

Lemma stable_gated st0 st : stable st0 st -> gated st = gated st0.
Proof.
  intros (_ & Hc & _ & Hi & Hd & _). unfold gated. rewrite Hc, Hi, Hd. reflexivity.
Qed.

Lemma stable_mask_of st0 st lo hi : stable st0 st -> mask_of E lo hi st = mask_of E lo hi st0.
Proof. intros H. unfold mask_of. rewrite (stable_gated _ _ H). reflexivity. Qed.

Lemma stable_mask_on st0 st color : stable st0 st -> mask_on E st color = mask_on E st0 color.
Proof.
  intros H. unfold mask_on. destruct (dict_get (COLORS_HSV E) color); [|reflexivity].
  rewrite (stable_mask_of _ _ _ _ H). reflexivity.
Qed.

Lemma stable_mask_ok st0 st color : stable st0 st -> mask_ok E st color = mask_ok E st0 color.
Proof.
  intros H. unfold mask_ok. destruct (dict_get (COLORS_HSV E) color); [|reflexivity].
  rewrite (stable_mask_of _ _ _ _ H). reflexivity.
Qed.

Lemma nonempty_by_length {A : Type} (ra ra' : list (list A)) (i : nat) :
  map (@length A) ra' = map (@length A) ra ->
  match getitem ra' i with Ok (_ :: _) => true | _ => false end
  = match getitem ra i with Ok (_ :: _) => true | _ => false end.
Proof.
  intros H. unfold getitem.
  assert (Hn : nth_error (map (@length A) ra') i = nth_error (map (@length A) ra) i)
    by (rewrite H; reflexivity).
  rewrite !nth_error_map in Hn.
  destruct (nth_error ra' i) as [[|a h]|], (nth_error ra i) as [[|b k]|];
    simpl in *; try reflexivity; discriminate.
Qed.

Lemma stable_history_ok st0 st color :
  stable st0 st -> history_ok E st color = history_ok E st0 color.
Proof.
  intros (_ & _ & _ & _ & _ & _ & Hl & _). unfold history_ok.
  destruct (dict_get (COLORS E) color) as [idx|]; [|reflexivity].
  apply nonempty_by_length. exact Hl.
Qed.

Lemma stable_well_configured st0 st :
  stable st0 st -> well_configured E st = well_configured E st0.
Proof.
  intros H. unfold well_configured.
  rewrite !(forallb_pointwise (history_ok E st) (history_ok E st0))
    by (intros; apply stable_history_ok; exact H).
  rewrite (forallb_pointwise (mask_ok E st) (mask_ok E st0))
    by (intros; apply stable_mask_ok; exact H).
  reflexivity.
Qed.

(** *** A call of broadcast_color that returns *)

(** The steps of a completed call: the colour's index, the centroid found,
    the state [st1] after the history update, the smoothed centroid [mc] of
    the history of [st1], its deprojection [xyz], and the one transform. *)
Lemma broadcast_color_completed (lo hi : bounds) (color : string) st st' evs :
  broadcast_color E lo hi color st = (Ok tt, st', evs) ->
  exists idx c pre st1 mc xyz,
    dict_get (COLORS E) color = Ok idx
    /\ find_color_centroid E lo hi st = (Ok c, st, pre)
    /\ update_history idx c st = (Ok tt, st1, [])
    /\ rbind (getitem (histories st1) idx) median_centroid = Ok mc
    /\ get_3d_coordinates_at_pixel E (cv2_client st1) (fst mc) (snd mc) (frame_name color)
       = Ok xyz
    /\ broadcast_color_frame E base_frame_name (frame_name color) (fst mc) (snd mc) st1
       = (Ok tt, st', [SendTransform (transform_of E base_frame_name (frame_name color) st1 xyz)])
    /\ st' = tick_clock (if is_invalid xyz then st1 else set_prev_xyz xyz st1)
    /\ evs = pre ++ [SendTransform (transform_of E base_frame_name (frame_name color) st1 xyz)].
Proof.
  intros H. unfold broadcast_color in H. unfold bind at 1, lift at 1 in H.
  destruct (dict_get (COLORS E) color) as [idx|e]; [|discriminate].
  unfold bind at 1 in H.
  pose proof (find_color_centroid_same lo hi st) as Hsame. unfold wp in Hsame.
  destruct (find_color_centroid E lo hi st) as [[[c|e] s0] pre] eqn:Hf; [|discriminate].
  subst s0. unfold bind at 1 in H.
  pose proof (update_history_stable idx c st) as Hu. unfold wp in Hu.
  destruct (update_history idx c st) as [[[[]|e] st1] ev1] eqn:Hup; [|discriminate].
  destruct Hu as [_ ->]. unfold bind at 1 in H. rewrite smoothed_run in H.
  destruct (rbind (getitem (histories st1) idx) median_centroid) as [mc|e] eqn:Hm;
    [|discriminate].
  pose proof (broadcast_color_frame_run base_frame_name (frame_name color)
                (fst mc) (snd mc) st1) as Hb.
  destruct (get_3d_coordinates_at_pixel E (cv2_client st1) (fst mc) (snd mc)
              (frame_name color)) as [xyz|e] eqn:Hd.
  - rewrite Hb in H. simpl in H. injection H as <- <-.
    exists idx, c, pre, st1, mc, xyz. repeat split; auto.
  - rewrite Hb in H. discriminate.
Qed.

Lemma dict_get_In {V : Type} (d : list (string * V)) (key : string) :
  In key (keys d) -> exists v, dict_get d key = Ok v.
Proof.
  induction d as [|[k v] d IH]; simpl; [tauto|].
  intros H. destruct (String.eqb_spec k key) as [->|Hne].
  - eexists; reflexivity.
  - destruct H as [H|H]; [congruence|]. apply IH. exact H.
Qed.

Lemma find_color_centroid_total (lo hi : bounds) st mask :
  forallb (history_ok E st) (keys (COLORS E)) = true ->
  mask_of E lo hi st = Ok mask ->
  exists c pre, find_color_centroid E lo hi st = (Ok c, st, pre).
Proof.
  intros Hh Hm. pose proof (find_color_centroid_spec lo hi st) as H.
  unfold wp in H. destruct (find_color_centroid E lo hi st) as [[r st'] pre].
  destruct H as [-> H]. rewrite Hm in H.
  destruct (np_any mask).
  - destruct H as [(bg & img & _ & _ & -> & ->)|(e & _ & _ & F)]; [eauto|congruence].
  - destruct H as [-> ->]. eauto.
Qed.

Lemma history_ok_getitem st color :
  history_ok E st color = true ->
  exists idx a h, dict_get (COLORS E) color = Ok idx
                  /\ getitem (histories st) idx = Ok (a :: h).
Proof.
  unfold history_ok. destruct (dict_get (COLORS E) color) as [idx|]; [|discriminate].
  destruct (getitem (histories st) idx) as [[|a h]|] eqn:Hg; try discriminate.
  intros _. exists idx, a, h. split; [reflexivity|exact Hg].
Qed.

Lemma update_history_total (idx : nat) (c a : Z * Z) (h : list (Z * Z)) st :
  getitem (histories st) idx = Ok (a :: h) ->
  exists st1, update_history idx c st = (Ok tt, st1, []) /\ stable st st1.
Proof.
  intros Hget. pose proof (update_history_stable idx c st) as Hs. unfold wp in Hs.
  rewrite update_history_run in *. rewrite Hget in *. simpl shift in *. cbv iota in *.
  destruct (centroid_nonzero c && update_colors st); destruct Hs as [Hs _];
    eexists; split; try reflexivity; exact Hs.
Qed.

Lemma broadcast_color_total (lo hi : bounds) (color : string) (mask : image Z) st :
  (forall c x y frame, exists p, get_3d_coordinates_at_pixel E c x y frame = Ok p) ->
  forallb (history_ok E st) (keys (COLORS E)) = true ->
  history_ok E st color = true ->
  mask_of E lo hi st = Ok mask ->
  exists st' evs, broadcast_color E lo hi color st = (Ok tt, st', evs).
Proof.
  intros Hd Hc Hh Hmask.
  destruct (history_ok_getitem _ _ Hh) as (idx & a & h & Hidx & Hget).
  destruct (find_color_centroid_total _ _ _ _ Hc Hmask) as (c & pre & Hf).
  destruct (update_history_total idx c a h st Hget) as (st1 & Hu & Hst).
  assert (Hok : history_ok E st1 color = true)
    by (rewrite (stable_history_ok _ _ color Hst); exact Hh).
  destruct (history_ok_getitem _ _ Hok) as (idx' & a' & h' & Hidx' & Hget').
  assert (idx' = idx) by congruence. subst idx'.
  destruct (median_centroid_total (a' :: h')) as [mc Hmc]; [discriminate|].
  destruct (Hd (cv2_client st1) (fst mc) (snd mc) (frame_name color)) as [xyz Hxyz].
  unfold broadcast_color. unfold bind at 1, lift at 1. rewrite Hidx.
  unfold bind at 1. rewrite Hf. unfold bind at 1. rewrite Hu.
  unfold bind at 1. rewrite smoothed_run, Hget'. simpl rbind. rewrite Hmc.
  rewrite broadcast_color_frame_run, Hxyz. eexists; eexists; reflexivity.
Qed.

(** One iteration of the loop completes when the configuration fits and
    the collaborators do not raise. *)
Lemma tick_body_total (color : string) st :
  collaborators_total E ->
  well_configured E st = true ->
  In color (keys (COLORS_HSV E)) ->
  wp (tick_body E color) (fun r _ _ => r = Ok tt) st.
Proof.
  intros [Hd Hi] Hw Hin. unfold well_configured in Hw.
  apply andb_true_iff in Hw as [Hw Hm]. apply andb_true_iff in Hw as [Hc Hh].
  rewrite forallb_forall in Hh, Hm. specialize (Hh _ Hin). specialize (Hm _ Hin).
  unfold mask_ok in Hm.
  destruct (dict_get (COLORS_HSV E) color) as [hsv|] eqn:Hhsv; [|discriminate].
  destruct (mask_of E (fst hsv) (snd hsv) st) as [mask|] eqn:Hmask; [|discriminate].
  destruct (broadcast_color_total _ _ _ _ _ Hd Hc Hh Hmask) as (st2 & evs & Hb).
  unfold wp, tick_body. unfold bind at 1, lift at 1. rewrite Hhsv.
  unfold bind at 1. rewrite Hb. unfold call_detect_illumination.
  specialize (Hi (cv2_client st2) color).
  destruct (detect_illumination E (cv2_client st2) color) as [r il].
  simpl in Hi. subst r. reflexivity.
Qed.

(** What a completed iteration did. *)
Lemma tick_body_completed (color : string) st0 st st' ev :
  stable st0 st ->
  tick_body E color st = (Ok tt, st', ev) ->
  color_step E st0 color ev.
Proof.
  intros Hst H. unfold tick_body in H. unfold bind at 1, lift at 1 in H.
  destruct (dict_get (COLORS_HSV E) color) as [hsv|] eqn:Hhsv; [|discriminate].
  unfold bind at 1 in H.
  destruct (broadcast_color E (fst hsv) (snd hsv) color st) as [[[[]|e] st2] ev2] eqn:Hb;
    [|discriminate].
  pose proof (call_detect_illumination_stable color st2) as Hc. unfold wp in Hc.
  destruct (call_detect_illumination E color st2) as [[r3 st3] ev3].
  destruct Hc as (_ & _ & _ & ->). injection H as -> <- <-. rewrite app_nil_r.
  destruct (broadcast_color_completed _ _ _ _ _ _ Hb)
    as (idx & c & pre & st1 & mc & xyz & Hidx & Hf & Hu & Hm & Hd & _ & _ & ->).
  pose proof (update_history_stable idx c st) as Hs1. unfold wp in Hs1.
  rewrite Hu in Hs1. destruct Hs1 as [Hs1 _].
  exists hsv, idx, st1, mc, xyz, pre.
  split; [exact Hhsv|]. split; [exact Hidx|].
  split; [eapply stable_trans; eassumption|].
  split; [exact Hm|]. split; [exact Hd|]. split; [reflexivity|].
  pose proof (find_color_centroid_spec (fst hsv) (snd hsv) st) as Hspec.
  unfold wp in Hspec. rewrite Hf in Hspec. destruct Hspec as [_ Hspec].
  rewrite <- (stable_mask_on _ _ color Hst).
  unfold mask_on. rewrite Hhsv.
  destruct (mask_of E (fst hsv) (snd hsv) st) as [mask|e]; [|destruct Hspec; discriminate].
  destruct (np_any mask).
  - left. split; [reflexivity|].
    destruct Hspec as [(bg & ann & Hbg & Hann & _ & ->)|(e & He & _)]; [|discriminate].
    eexists. split; [|reflexivity].
    exists bg, ann, st. split; [exact Hst|].
    split; [rewrite <- (stable_gated _ _ Hst); exact Hbg|].
    split; [exact Hann|].
    destruct Hst as (-> & _). reflexivity.
  - right. destruct Hspec as [_ ->]. auto.
Qed.

(** *** A whole tick *)

(** A completed tick with both buffers present: one completed iteration
    for every configured colour, in the order of the table. *)
Lemma timer_callback_completed st st' evs :
  has_images st = true ->
  timer_callback E st = (Ok tt, st', evs) ->
  stable st st'
  /\ exists evss, evs = concat evss
                  /\ Forall2 (color_step E st) (keys (COLORS_HSV E)) evss.
Proof.
  intros Himg H. rewrite timer_callback_unfold, Himg in H.
  assert (Hw : wp (for_each (keys (COLORS_HSV E)) (tick_body E))
                 (fun r st' evs => stable st st'
                    /\ (r = Ok tt -> exists evss, evs = concat evss
                          /\ Forall2 (color_step E st) (keys (COLORS_HSV E)) evss)) st).
  { apply for_each_completed; [|apply stable_refl].
    intros color st1 Hst. apply wp_intro. intros r st2 ev Hrun. split.
    - exact (wp_run _ _ _ _ _ _ Hrun (tick_body_stable color st st1 Hst)).
    - intros ->. eapply tick_body_completed; eassumption. }
  destruct (wp_run _ _ _ _ _ _ H Hw) as [Hs Hr]. split; [exact Hs|]. apply Hr. reflexivity.
Qed.

(** A tick completes when the configuration fits and the collaborators do
    not raise. *)
Lemma timer_callback_total st :
  collaborators_total E ->
  well_configured E st = true ->
  exists st' evs, timer_callback E st = (Ok tt, st', evs).
Proof.
  intros Hc Hw. rewrite timer_callback_unfold.
  destruct (has_images st); [|eexists; eexists; reflexivity].
  assert (H : wp (for_each (keys (COLORS_HSV E)) (tick_body E))
                (fun r st' evs => r = Ok tt /\ stable st st'
                   /\ exists evss, evs = concat evss
                        /\ Forall2 (fun _ _ => True) (keys (COLORS_HSV E)) evss) st).
  { apply wp_for_each_all; [|apply stable_refl].
    intros color st1 Hin Hst. apply wp_intro. intros r st2 ev Hrun.
    split; [|split; [|exact I]].
    - refine (wp_run _ _ _ _ _ _ Hrun (tick_body_total color st1 Hc _ Hin)).
      rewrite (stable_well_configured _ _ Hst). exact Hw.
    - exact (wp_run _ _ _ _ _ _ Hrun (tick_body_stable color st st1 Hst)). }
  unfold wp in H.
  destruct (for_each (keys (COLORS_HSV E)) (tick_body E) st) as [[r st'] evs].
  destruct H as (-> & _). eexists; eexists; reflexivity.
Qed.

Lemma transforms_app evs1 evs2 : transforms (evs1 ++ evs2) = transforms evs1 ++ transforms evs2.
Proof. unfold transforms. apply flat_map_app. Qed.

Lemma images_app evs1 evs2 : images (evs1 ++ evs2) = images evs1 ++ images evs2.
Proof. unfold images. apply flat_map_app. Qed.

(** ** The fallback point *)

Lemma broadcast_color_frame_valid (base child : string) (x_c y_c : Z) st xyz :
  get_3d_coordinates_at_pixel E (cv2_client st) x_c y_c child = Ok xyz ->
  exists st',
    broadcast_color_frame E base child x_c y_c st
    = (Ok tt, st', [SendTransform (transform_of E base child st xyz)])
    /\ cv2_client st' = cv2_client st
    /\ prev_xyz st' = used_point (prev_xyz st) xyz.
Proof.
  intros H. rewrite broadcast_color_frame_run, H. eexists. split; [reflexivity|].
  unfold used_point. destruct (is_invalid xyz); simpl; auto.
Qed.

Lemma keeps_fallback {A : Type} (m : M Illum A) st0 :
  (forall st, wp m (fun _ st' _ => prev_xyz st' = prev_xyz st) st) ->
  keeps (fallback_from E st0) m.
Proof.
  intros Hm st H. eapply wp_conseq; [|apply Hm].
  intros r st' evs Hp. unfold fallback_from in *. rewrite Hp. exact H.
Qed.

Lemma update_history_prev (idx : nat) (c : Z * Z) st :
  wp (update_history idx c) (fun _ st' _ => prev_xyz st' = prev_xyz st) st.
Proof.
  unfold wp. rewrite update_history_run.
  destruct (centroid_nonzero c && update_colors st); [|reflexivity].
  destruct (getitem (histories st) idx) as [h|e]; [|reflexivity].
  destruct (shift h c); reflexivity.
Qed.

Lemma broadcast_color_frame_fallback (base child : string) (x_c y_c : Z) st0 :
  keeps (fallback_from E st0) (broadcast_color_frame E base child x_c y_c).
Proof.
  intros st H. unfold wp. rewrite broadcast_color_frame_run.
  destruct (get_3d_coordinates_at_pixel E (cv2_client st) x_c y_c child) as [xyz|e] eqn:Hd;
    [|exact H].
  destruct (is_invalid xyz) eqn:Hv; [exact H|].
  right. exists (cv2_client st), x_c, y_c, child, xyz. auto.
Qed.

Lemma broadcast_color_fallback (lo hi : bounds) (color : string) st0 :
  keeps (fallback_from E st0) (broadcast_color E lo hi color).
Proof.
  unfold broadcast_color.
  apply keeps_bind; [apply keeps_lift|intros idx].
  apply keeps_bind.
  { apply keeps_fallback. intros st. eapply wp_conseq; [|apply find_color_centroid_same].
    simpl. intros r st' evs ->. reflexivity. }
  intros c. apply keeps_bind; [apply keeps_fallback, update_history_prev|].
  intros _. apply keeps_bind.
  { intros st H. unfold wp. rewrite smoothed_run. exact H. }
  intros mc. apply broadcast_color_frame_fallback.
Qed.

Lemma timer_callback_fallback st :
  wp (timer_callback E) (fun _ st' _ => fallback_from E st st') st.
Proof.
  unfold wp. rewrite timer_callback_unfold.
  destruct (has_images st); [|left; reflexivity].
  apply (keeps_for_each (fallback_from E st) (tick_body E)); [|left; reflexivity].
  intros color. unfold tick_body.
  apply keeps_bind; [apply keeps_lift|intros hsv].
  apply keeps_bind; [apply broadcast_color_fallback|intros _].
  apply keeps_fallback. intros s.
  eapply wp_conseq; [|apply call_detect_illumination_stable]. simpl. tauto.
Qed.

(** C5. On an invalid deprojection the transform is made of the fallback
    point and the fallback is left as it is; on a valid one the fallback
    becomes the new point and the transform is made of it.  The fallback is
    one field of the node, whatever the colour: after a valid deprojection
    for one frame, an invalid one for any other frame reuses that point.  No
    callback changes the fallback otherwise: after any request it is the one
    before, or a point that a deprojection of a tick returned as valid. *)
Theorem fallback_is_shared_and_guarded (base child : string) (x_c y_c : Z) st xyz :
  get_3d_coordinates_at_pixel E (cv2_client st) x_c y_c child = Ok xyz ->
  exists st' t,
    broadcast_color_frame E base child x_c y_c st = (Ok tt, st', [SendTransform t])
    /\ (is_invalid xyz = true ->
        prev_xyz st' = prev_xyz st /\ translation t = remap (prev_xyz st))
    /\ (is_invalid xyz = false ->
        prev_xyz st' = xyz /\ translation t = remap xyz)
    /\ (forall base2 child2 x2 y2 xyz2,
          get_3d_coordinates_at_pixel E (cv2_client st') x2 y2 child2 = Ok xyz2 ->
          is_invalid xyz = false -> is_invalid xyz2 = true ->
          exists st2 t2,
            broadcast_color_frame E base2 child2 x2 y2 st' = (Ok tt, st2, [SendTransform t2])
            /\ translation t2 = remap xyz /\ prev_xyz st2 = xyz)
    /\ (forall q s r s' evs,
          handle E q s = (r, s', evs) ->
          (q <> Tick -> prev_xyz s' = prev_xyz s) /\ fallback_from E s s').
Proof.
  intros H. destruct (broadcast_color_frame_valid base child x_c y_c st xyz H)
    as (st' & Hrun & Hcl & Hprev).
  exists st', (transform_of E base child st xyz). split; [exact Hrun|].
  unfold used_point in Hprev. simpl translation. unfold used_point.
  split; [intros Hv; rewrite Hv in *; auto|].
  split; [intros Hv; rewrite Hv in *; auto|].
  split.
  - intros base2 child2 x2 y2 xyz2 H2 Hv Hv2. rewrite Hv in Hprev.
    destruct (broadcast_color_frame_valid base2 child2 x2 y2 st' xyz2 H2)
      as (st2 & Hrun2 & _ & Hprev2).
    exists st2, (transform_of E base2 child2 st' xyz2). split; [exact Hrun2|].
    simpl translation. unfold used_point in *. rewrite Hv2 in *. rewrite Hprev2, Hprev.
    auto.
  - intros q s r s' evs Hq. destruct q; simpl in Hq.
    + split; [congruence|].
      exact (wp_run _ _ _ _ _ _ Hq (timer_callback_fallback s)).
    + unfold toggle_tf_publish, bind, get, modify in Hq. injection Hq as _ <- _.
      split; [reflexivity|left; reflexivity].
    + unfold camera_info_callback, modify in Hq. injection Hq as _ <- _.
      split; [reflexivity|left; reflexivity].
    + unfold get_depth_info, modify in Hq. injection Hq as _ <- _.
      split; [reflexivity|left; reflexivity].
    + unfold get_color_info, modify in Hq. injection Hq as _ <- _.
      split; [reflexivity|left; reflexivity].
Qed.

(** C10. The validity test reads the X coordinate alone: whatever Y and Z
    are, a deprojected point with X equal to -1 is replaced by the fallback,
    which stays as it is, and a point with X different from -1 is broadcast
    and becomes the fallback. *)
Theorem validity_test_reads_x_only (base child : string) (x_c y_c : Z) st (x y z : float) :
  get_3d_coordinates_at_pixel E (cv2_client st) x_c y_c child = Ok (x, y, z) ->
  exists st' t,
    broadcast_color_frame E base child x_c y_c st = (Ok tt, st', [SendTransform t])
    /\ (PrimFloat.eqb x (-1)%float = true ->
        prev_xyz st' = prev_xyz st /\ translation t = remap (prev_xyz st))
    /\ (PrimFloat.eqb x (-1)%float = false ->
        prev_xyz st' = (x, y, z)
        /\ translation t = (z, PrimFloat.opp x, PrimFloat.opp y)).
Proof.
  intros H. rewrite broadcast_color_frame_run, H.
  eexists. eexists. split; [reflexivity|].
  simpl translation. unfold used_point, is_invalid.
  split; intros Hx; rewrite Hx; simpl; auto.
Qed.

(** C8. When the colour buffer or the depth buffer has no row yet, the tick
    returns at once: it raises nothing, leaves the whole node state (the
    histories among it) as it is, and sends no transform and no image. *)
Theorem tick_without_images_is_noop st :
  shape0 (color_image (cv2_client st)) = 0%nat
  \/ shape0 (depth_image (cv2_client st)) = 0%nat ->
  timer_callback E st = (Ok tt, st, []).
Proof.
  intros H. rewrite timer_callback_unfold. unfold has_images.
  destruct H as [-> | ->]; simpl; [reflexivity|].
  rewrite andb_false_r. reflexivity.
Qed.

(** ** The centroid history *)

Lemma find_color_centroid_empty_mask (lo hi : bounds) st mask :
  mask_of E lo hi st = Ok mask -> np_any mask = false ->
  find_color_centroid E lo hi st = (Ok not_found, st, []).
Proof.
  intros Hmask Hany. pose proof (find_color_centroid_spec lo hi st) as H.
  unfold wp in H. destruct (find_color_centroid E lo hi st) as [[r s'] ev].
  destruct H as [-> H]. rewrite Hmask, Hany in H. destruct H as [-> ->]. reflexivity.
Qed.

Lemma broadcast_color_frame_histories (base child : string) (x_c y_c : Z) st :
  wp (broadcast_color_frame E base child x_c y_c)
     (fun _ st' _ => histories st' = histories st) st.
Proof.
  eapply wp_conseq; [|apply broadcast_color_frame_stable].
  simpl. intros r st' evs [_ H]. unfold histories. rewrite H. reflexivity.
Qed.

(** C1. The test of line 157 compares the returned coordinates with 0, and
    the "not found" sentinel is (-1, -1): when the mask is empty and the flag
    is true, the call of broadcast_color drops the oldest sample of the
    colour's history and appends the sentinel, however the call ends. *)
Theorem sentinel_is_appended_to_history (lo hi : bounds) (color : string) st
  (idx : nat) (a : Z * Z) (h : list (Z * Z)) (mask : image Z) :
  dict_get (COLORS E) color = Ok idx ->
  mask_of E lo hi st = Ok mask ->
  np_any mask = false ->
  update_colors st = true ->
  getitem (histories st) idx = Ok (a :: h) ->
  find_color_centroid E lo hi st = (Ok not_found, st, [])
  /\ forall r st' evs,
      broadcast_color E lo hi color st = (r, st', evs) ->
      getitem (histories st') idx = Ok (h ++ [not_found]).
Proof.
  intros Hidx Hmask Hany Hflag Hget.
  pose proof (find_color_centroid_empty_mask lo hi st mask Hmask Hany) as Hf.
  split; [exact Hf|].
  intros r st' evs Hrun. unfold broadcast_color in Hrun.
  unfold bind at 1, lift at 1 in Hrun. rewrite Hidx in Hrun.
  unfold bind at 1 in Hrun. rewrite Hf in Hrun.
  unfold bind at 1 in Hrun. rewrite update_history_run in Hrun.
  rewrite Hflag, Hget in Hrun.
  change (centroid_nonzero not_found && true) with true in Hrun.
  simpl shift in Hrun. cbv iota in Hrun.
  set (st1 := with_client
                (set_running_avg (setitem (histories st) idx (h ++ [not_found]))) st) in *.
  assert (H1 : getitem (histories st1) idx = Ok (h ++ [not_found])).
  { unfold st1, histories. simpl. apply getitem_Ok in Hget.
    eapply getitem_setitem_same. exact Hget. }
  unfold bind at 1 in Hrun. rewrite smoothed_run in Hrun.
  destruct (rbind (getitem (histories st1) idx) median_centroid) as [mc|e].
  - pose proof (broadcast_color_frame_histories base_frame_name (frame_name color)
                  (fst mc) (snd mc) st1) as Hb. unfold wp in Hb.
    destruct (broadcast_color_frame E base_frame_name (frame_name color)
                (fst mc) (snd mc) st1) as [[r2 st2] ev2].
    injection Hrun as _ <- _. rewrite Hb. exact H1.
  - injection Hrun as _ <- _. exact H1.
Qed.

Lemma py_int_not_found : py_int (inject_Z (-1)) = -1.
Proof. reflexivity. Qed.

(** C3. With the Centroid Extractor of the spec's 4.3: when the mask has
    no "on" pixel inside the rectangle, the extractor gives the sentinel and
    find_color_centroid returns (-1, -1), whether the mask is empty (the
    early return of line 204) or has "on" pixels outside the rectangle. *)
Theorem not_found_when_roi_has_no_on_pixel (lo hi : bounds) st (mask : image Z) :
  mask_of E lo hi st = Ok mask ->
  on_pixels mask (crop_rect st) = [] ->
  forallb (history_ok E st) (keys (COLORS E)) = true ->
  find_centroid_cropped mask (crop_rect st) = (inject_Z (-1), inject_Z (-1))
  /\ exists pre, find_color_centroid E lo hi st = (Ok not_found, st, pre).
Proof.
  intros Hmask Hroi Hh.
  assert (Hc : find_centroid_cropped mask (crop_rect st) = (inject_Z (-1), inject_Z (-1)))
    by (unfold find_centroid_cropped; rewrite Hroi; reflexivity).
  split; [exact Hc|].
  pose proof (find_color_centroid_spec lo hi st) as H. unfold wp in H.
  destruct (find_color_centroid E lo hi st) as [[r s'] pre].
  destruct H as [-> H]. rewrite Hmask in H. destruct (np_any mask).
  - destruct H as [(bg & img & _ & _ & -> & ->)|(e & _ & _ & F)]; [|congruence].
    unfold cropped_centroid. rewrite Hc. simpl fst. simpl snd.
    rewrite py_int_not_found. eexists. reflexivity.
  - destruct H as [-> ->]. eexists. reflexivity.
Qed.

(** C4 (as the code has it). In every call of broadcast_color that
    returns, the pixel handed to broadcast_color_frame is, axis by axis, the
    median of the colour's history as the call leaves it (updated or not),
    cast to an integer by truncation toward zero; each of its coordinates
    lies between the smallest and the largest sample of that axis, and is
    the median itself when the history has an odd length. *)
Theorem smoothed_centroid_is_truncated_median (lo hi : bounds) (color : string)
  st st' evs :
  broadcast_color E lo hi color st = (Ok tt, st', evs) ->
  exists idx h mx my st1 pre t,
    dict_get (COLORS E) color = Ok idx
    /\ getitem (histories st') idx = Ok h
    /\ np_median (map fst h) = Ok mx
    /\ np_median (map snd h) = Ok my
    /\ histories st1 = histories st'
    /\ broadcast_color_frame E base_frame_name (frame_name color)
         (py_int mx) (py_int my) st1 = (Ok tt, st', [SendTransform t])
    /\ evs = pre ++ [SendTransform t]
    /\ list_min (map fst h) <= py_int mx <= list_max (map fst h)
    /\ list_min (map snd h) <= py_int my <= list_max (map snd h)
    /\ (Nat.odd (length h) = true ->
        inject_Z (py_int mx) = mx /\ inject_Z (py_int my) = my).
Proof.
  intros H. destruct (broadcast_color_completed _ _ _ _ _ _ H)
    as (idx & c & pre & st1 & mc & xyz & Hidx & _ & _ & Hm & _ & Hb & _ & ->).
  destruct (getitem (histories st1) idx) as [h|] eqn:Hg; [|discriminate].
  simpl in Hm. destruct (median_centroid_spec h mc Hm) as (mx & my & Hx & Hy & -> & Bx & By).
  simpl in Hb, Bx, By.
  pose proof (broadcast_color_frame_histories base_frame_name (frame_name color)
                (py_int mx) (py_int my) st1) as Hh.
  unfold wp in Hh. rewrite Hb in Hh.
  exists idx, h, mx, my, st1, pre, (transform_of E base_frame_name (frame_name color) st1 xyz).
  rewrite Hh. repeat split; auto; try lia.
  - apply (np_median_odd (map fst h)); [rewrite length_map|]; assumption.
  - apply (np_median_odd (map snd h)); [rewrite length_map|]; assumption.
Qed.

(** ** The messages of a tick *)

Lemma color_step_images st0 color ev :
  color_step E st0 color ev ->
  (mask_on E st0 color = true
   /\ exists img, annotated_copy E st0 img /\ images ev = [img])
  \/ (mask_on E st0 color = false /\ images ev = []).
Proof.
  intros (hsv & idx & st1 & mc & xyz & pre & _ & _ & _ & _ & _ & -> & Hpre).
  rewrite images_app.
  destruct Hpre as [[Hon (img & Hcopy & ->)]|[Hoff ->]]; simpl; eauto.
Qed.

Lemma color_step_transform st0 color ev :
  color_step E st0 color ev ->
  exists idx st1 mc xyz,
    dict_get (COLORS E) color = Ok idx
    /\ stable st0 st1
    /\ rbind (getitem (histories st1) idx) median_centroid = Ok mc
    /\ get_3d_coordinates_at_pixel E (cv2_client st1) (fst mc) (snd mc) (frame_name color)
       = Ok xyz
    /\ transforms ev = [transform_of E base_frame_name (frame_name color) st1 xyz].
Proof.
  intros (hsv & idx & st1 & mc & xyz & pre & _ & Hidx & Hst & Hm & Hd & -> & Hpre).
  exists idx, st1, mc, xyz.
  split; [exact Hidx|]. split; [exact Hst|]. split; [exact Hm|]. split; [exact Hd|].
  rewrite transforms_app. destruct Hpre as [[_ (img & _ & ->)]|[_ ->]]; reflexivity.
Qed.

Lemma tick_images st0 (colors : list string) (evss : list (list event)) :
  Forall2 (color_step E st0) colors evss ->
  length (images (concat evss)) = length (filter (mask_on E st0) colors)
  /\ Forall (annotated_copy E st0) (images (concat evss)).
Proof.
  induction 1 as [|color ev colors evss Hstep _ [IHl IHf]]; simpl.
  - split; [reflexivity|constructor].
  - rewrite images_app, length_app.
    destruct (color_step_images _ _ _ Hstep) as [[-> (img & Hcopy & ->)]|[-> ->]]; simpl.
    + split; [rewrite IHl; reflexivity|constructor; assumption].
    + split; assumption.
Qed.

Lemma tick_transforms st0 (colors : list string) (evss : list (list event)) :
  Forall2 (color_step E st0) colors evss ->
  Forall2 (frame_sent E st0) colors (transforms (concat evss)).
Proof.
  induction 1 as [|color ev colors evss Hstep _ IH]; simpl concat.
  - constructor.
  - rewrite transforms_app.
    destruct (color_step_transform _ _ _ Hstep) as (idx & st1 & mc & xyz & H1 & H2 & H3 & H4 & ->).
    simpl. constructor; [|exact IH]. exists idx, st1, mc, xyz.
    split; [exact H1|]. split; [exact H2|]. split; [exact H3|]. split; [exact H4|].
    reflexivity.
Qed.

Lemma Forall2_weaken {A B : Type} (R R' : A -> B -> Prop) xs ys :
  (forall x y, R x y -> R' x y) -> Forall2 R xs ys -> Forall2 R' xs ys.
Proof. intros H. induction 1; constructor; auto. Qed.

Lemma find_color_centroid_sends_no_transform (lo hi : bounds) st c st' pre :
  find_color_centroid E lo hi st = (Ok c, st', pre) -> transforms pre = [].
Proof.
  intros H. pose proof (find_color_centroid_spec lo hi st) as Hs.
  unfold wp in Hs. rewrite H in Hs. destruct Hs as [_ Hs].
  destruct (mask_of E lo hi st) as [mask|e]; [|destruct Hs; discriminate].
  destruct (np_any mask).
  - destruct Hs as [(bg & img & _ & _ & _ & ->)|(e & He & _)]; [reflexivity|discriminate].
  - destruct Hs as [_ ->]. reflexivity.
Qed.

(** The steps of a completed iteration, with the states they run in. *)
Lemma tick_body_served (color : string) st st' ev :
  tick_body E color st = (Ok tt, st', ev) ->
  exists hsv idx c pre u mc xyz,
    dict_get (COLORS_HSV E) color = Ok hsv
    /\ dict_get (COLORS E) color = Ok idx
    /\ find_color_centroid E (fst hsv) (snd hsv) st = (Ok c, st, pre)
    /\ update_history idx c st = (Ok tt, u, [])
    /\ rbind (getitem (histories u) idx) median_centroid = Ok mc
    /\ get_3d_coordinates_at_pixel E (cv2_client u) (fst mc) (snd mc) (frame_name color)
       = Ok xyz
    /\ ev = pre ++ [SendTransform (transform_of E base_frame_name (frame_name color) u xyz)]
    /\ transforms pre = []
    /\ prev_xyz u = prev_xyz st
    /\ prev_xyz st' = used_point (prev_xyz st) xyz.
Proof.
  intros H. pose proof H as Hrun. unfold tick_body in H. unfold bind at 1, lift at 1 in H.
  destruct (dict_get (COLORS_HSV E) color) as [hsv|] eqn:Hhsv; [|discriminate].
  unfold bind at 1 in H.
  destruct (broadcast_color E (fst hsv) (snd hsv) color st) as [[[[]|e] st2] ev2] eqn:Hb;
    [|discriminate].
  pose proof (call_detect_illumination_stable color st2) as Hc. unfold wp in Hc.
  destruct (call_detect_illumination E color st2) as [[r3 st3] ev3].
  destruct Hc as (_ & _ & Hp3 & ->). injection H as -> <- <-. rewrite app_nil_r.
  destruct (broadcast_color_completed _ _ _ _ _ _ Hb)
    as (idx & c & pre & u & mc & xyz & Hidx & Hf & Hu & Hm & Hd & _ & Hst2 & ->).
  pose proof (update_history_prev idx c st) as Hpu. unfold wp in Hpu. rewrite Hu in Hpu.
  exists hsv, idx, c, pre, u, mc, xyz.
  split; [reflexivity|]. split; [exact Hidx|]. split; [exact Hf|]. split; [exact Hu|].
  split; [exact Hm|]. split; [exact Hd|]. split; [reflexivity|].
  split; [exact (find_color_centroid_sends_no_transform _ _ _ _ _ _ Hf)|].
  split; [exact Hpu|].
  rewrite Hp3, Hst2, <- Hpu. unfold used_point. destruct (is_invalid xyz); reflexivity.
Qed.

(** A completed run of the loop, colour by colour. *)
Lemma tick_loop_served (xs : list string) :
  forall st st' evs,
    for_each xs (tick_body E) st = (Ok tt, st', evs) ->
    frames_served E xs st (transforms evs) st'.
Proof.
  induction xs as [|color xs IH]; intros st st' evs H; simpl in H.
  - injection H as <- <-. reflexivity.
  - unfold bind in H.
    destruct (tick_body E color st) as [[[[]|e] s1] ev1] eqn:Hx; [|discriminate].
    destruct (for_each xs (tick_body E) s1) as [[r2 s2] ev2] eqn:Hxs.
    injection H as -> -> <-.
    destruct (tick_body_served _ _ _ _ Hx)
      as (hsv & idx & c & pre & u & mc & xyz & Hhsv & Hidx & Hf & Hu & Hm & Hd
          & Hev & Hpre & Hpu & Hp1).
    specialize (IH _ _ _ Hxs). subst ev1.
    rewrite !transforms_app, Hpre. simpl.
    destruct (used_point (prev_xyz st) xyz) as [[x y] z] eqn:Hused.
    exists hsv, idx, c, pre, u, mc, xyz, x, y, z, s1.
    split; [exact Hhsv|]. split; [exact Hidx|]. split; [exact Hf|]. split; [exact Hu|].
    split; [exact Hm|]. split; [exact Hd|]. split; [exact Hused|].
    split; [exact Hx|]. split; [exact Hpre|].
    split; [reflexivity|]. split; [reflexivity|].
    split; [rewrite Hpu, Hused; reflexivity|].
    split; [reflexivity|]. split; [exact Hp1|]. exact IH.
Qed.

Lemma frames_served_children (colors : list string) :
  forall st ts st',
    frames_served E colors st ts st' -> map child_frame_id ts = map frame_name colors.
Proof.
  induction colors as [|color colors IH]; intros st [|t ts] st' H; simpl in H;
    try contradiction; [reflexivity|].
  destruct H as (hsv & idx & c & pre & u & mc & xyz & x & y & z & s1 & H).
  destruct H as (_ & _ & _ & _ & _ & _ & _ & _ & _ & _ & Hch & _ & _ & _ & Hrest).
  simpl. rewrite Hch, (IH _ _ _ Hrest). reflexivity.
Qed.

(** C7. A tick with both buffers present, a fitting configuration and
    collaborators that do not raise completes, and the transforms it sends
    are one per configured colour, in the order of the table: each goes from
    ["camera_depth_frame"] to [<color>_frame], has the rotation (0, 0, 0, 1)
    and the translation (Z, -X, -Y), where (X, Y, Z) is the deprojection of
    the colour's smoothed centroid, or the fallback point when that
    deprojection is invalid.  The states are the ones of the run: the
    first colour starts in the state of the tick, its centroid is smoothed
    over the history as its own update left it, the fallback point is the
    one the colours before it left, and the next colour starts where this
    one ended ([frames_served]). *)
Theorem frames_are_remapped_per_color st :
  collaborators_total E ->
  well_configured E st = true ->
  has_images st = true ->
  exists st' evs,
    timer_callback E st = (Ok tt, st', evs)
    /\ frames_served E (keys (COLORS_HSV E)) st (transforms evs) st'.
Proof.
  intros Hc Hw Himg. destruct (timer_callback_total st Hc Hw) as (st' & evs & Hrun).
  exists st', evs. split; [exact Hrun|].
  apply tick_loop_served. rewrite timer_callback_unfold, Himg in Hrun. exact Hrun.
Qed.

(** C9 (as the code has it). In a completed tick with both buffers
    present, the annotated copy of the depth-gated image is published once
    for every configured colour whose mask has an "on" pixel, and for no
    other colour: as many images as there are such colours. *)
Theorem image_once_per_detected_color st st' evs :
  has_images st = true ->
  timer_callback E st = (Ok tt, st', evs) ->
  length (images evs) = length (filter (mask_on E st) (keys (COLORS_HSV E)))
  /\ Forall (annotated_copy E st) (images evs).
Proof.
  intros Himg Hrun.
  destruct (timer_callback_completed st st' evs Himg Hrun) as (_ & evss & -> & HF).
  apply tick_images. exact HF.
Qed.

(** ** The freeze *)

Lemma for_each_app {A : Type} (body : A -> M Illum unit) (xs ys : list A) st :
  for_each (xs ++ ys) body st = bind (for_each xs body) (fun _ => for_each ys body) st.
Proof.
  revert st. induction xs as [|x xs IH]; intros st; simpl.
  - unfold bind, ret. destruct (for_each ys body st) as [[r s] e]. reflexivity.
  - unfold bind. destruct (body x st) as [[[[]|e] s1] ev1]; [|reflexivity].
    rewrite IH. unfold bind.
    destruct (for_each xs body s1) as [[[[]|e] s2] ev2]; [|reflexivity].
    destruct (for_each ys body s2) as [[r s3] ev3]. rewrite app_assoc. reflexivity.
Qed.

Lemma toggle_tf_publish_run st :
  toggle_tf_publish st = (Ok tt, set_update_colors (negb (update_colors st)) st, []).
Proof. reflexivity. Qed.

(** While the flag is false, a callback other than the toggle leaves the
    histories and the flag as they are, however it ends. *)
Lemma handle_frozen (q : request) st :
  q <> Toggle ->
  update_colors st = false ->
  wp (handle E q) (fun _ st' _ => histories st' = histories st
                                   /\ update_colors st' = false) st.
Proof.
  intros Hq Hoff. destruct q; simpl; try congruence.
  - eapply wp_conseq; [|apply timer_callback_stable].
    intros r st' evs (_ & _ & Hf & _ & _ & _ & _ & Hh). simpl in *.
    split; [apply Hh; exact Hoff|congruence].
  - unfold wp, camera_info_callback, modify. simpl. auto.
  - unfold wp, get_depth_info, modify. simpl. auto.
  - unfold wp, get_color_info, modify. simpl. auto.
Qed.

Lemma spin_frozen (rs : list request) :
  Forall (fun q => q <> Toggle) rs ->
  forall st, update_colors st = false ->
    wp (spin E rs) (fun _ st' _ => histories st' = histories st
                                   /\ update_colors st' = false) st.
Proof.
  unfold spin. induction 1 as [|q rs Hq _ IH]; intros st Hoff; simpl.
  - unfold wp, ret. auto.
  - apply wp_bind. eapply wp_conseq; [|apply handle_frozen; assumption].
    intros [[]|e] st1 ev1 [Hh Hf]; [|auto].
    eapply wp_conseq; [|apply IH; exact Hf].
    intros r st2 ev2 [Hh2 Hf2]. split; congruence.
Qed.

(** C6. From a node whose flag is true: after the toggle, whatever
    callbacks other than the toggle follow (ticks on new images among them)
    and however they end, every history is what it was and the flag is
    false; when a second toggle follows, the flag is true again and the
    histories are still what they were.  A tick with both buffers present
    that completes while the flag is false sends one transform per configured
    colour, made from the median of that colour's unchanged history, colour
    by colour as [frames_served] has it; and such a tick does complete when
    the configuration fits and the collaborators do not raise. *)
Theorem freeze_keeps_histories st0 (rs : list request) :
  update_colors st0 = true ->
  Forall (fun q => q <> Toggle) rs ->
  (forall r st1 evs,
      spin E (Toggle :: rs) st0 = (r, st1, evs) ->
      histories st1 = histories st0 /\ update_colors st1 = false)
  /\ (forall st2 evs,
        spin E (Toggle :: rs ++ [Toggle]) st0 = (Ok tt, st2, evs) ->
        histories st2 = histories st0 /\ update_colors st2 = true)
  /\ (forall s s' evs,
        update_colors s = false ->
        has_images s = true ->
        timer_callback E s = (Ok tt, s', evs) ->
        histories s' = histories s
        /\ Forall2
             (fun color t =>
                child_frame_id t = frame_name color
                /\ exists idx h mc s1 xyz,
                     dict_get (COLORS E) color = Ok idx
                     /\ getitem (histories s) idx = Ok h
                     /\ median_centroid h = Ok mc
                     /\ stable s s1
                     /\ get_3d_coordinates_at_pixel E (cv2_client s1)
                          (fst mc) (snd mc) (frame_name color) = Ok xyz
                     /\ t = transform_of E base_frame_name (frame_name color) s1 xyz)
             (keys (COLORS_HSV E)) (transforms evs)
        /\ frames_served E (keys (COLORS_HSV E)) s (transforms evs) s')
  /\ (forall s,
        collaborators_total E -> well_configured E s = true ->
        exists s' evs, timer_callback E s = (Ok tt, s', evs)).
Proof.
  intros Hon Hrs.
  set (st := set_update_colors (negb (update_colors st0)) st0).
  assert (Hoff : update_colors st = false) by (unfold st; simpl; rewrite Hon; reflexivity).
  assert (Hsame : histories st = histories st0) by reflexivity.
  split; [|split; [|split]].
  - intros r st1 evs Hrun. unfold spin in Hrun. simpl in Hrun.
    unfold bind at 1 in Hrun. rewrite toggle_tf_publish_run in Hrun. fold st in Hrun.
    pose proof (spin_frozen rs Hrs st Hoff) as Hw. unfold wp, spin in Hw.
    destruct (for_each rs (handle E) st) as [[r1 s1] ev1].
    injection Hrun as _ <- _. destruct Hw as [Hh Hf]. split; congruence.
  - intros st2 evs Hrun. unfold spin in Hrun. simpl in Hrun.
    unfold bind at 1 in Hrun. rewrite toggle_tf_publish_run in Hrun. fold st in Hrun.
    rewrite for_each_app in Hrun. unfold bind at 1 in Hrun.
    pose proof (spin_frozen rs Hrs st Hoff) as Hw. unfold wp, spin in Hw.
    destruct (for_each rs (handle E) st) as [[[[]|e] s1] ev1]; [|discriminate].
    destruct Hw as [Hh Hf]. simpl in Hrun.
    injection Hrun as <- _. simpl. rewrite Hf. split; [|reflexivity].
    unfold histories in *. simpl. congruence.
  - intros s s' evs Hf Himg Hrun.
    assert (Hchain : frames_served E (keys (COLORS_HSV E)) s (transforms evs) s').
    { apply tick_loop_served. rewrite timer_callback_unfold, Himg in Hrun. exact Hrun. }
    destruct (timer_callback_completed s s' evs Himg Hrun) as (Hst & evss & -> & HF).
    split; [apply Hst; exact Hf|]. split; [|exact Hchain].
    eapply Forall2_weaken; [|apply tick_transforms; exact HF].
    intros color t (idx & s1 & mc & xyz & H1 & H2 & H3 & H4 & ->).
    split; [reflexivity|].
    assert (Hh : histories s1 = histories s) by (apply H2; exact Hf).
    rewrite Hh in H3.
    destruct (getitem (histories s) idx) as [h|] eqn:Hg; [|discriminate].
    exists idx, h, mc, s1, xyz.
    split; [exact H1|]. split; [exact Hg|]. split; [exact H3|].
    split; [exact H2|]. split; [exact H4|]. reflexivity.
  - intros s Hc Hw. apply timer_callback_total; assumption.
Qed.

End Properties.

(** * Further properties of the pipeline *)

(** ** The depth gate and the segmentation *)




Lemma zip_with_length_mismatch {A B C : Type} (f : A -> B -> result C) :
  forall xs ys, length xs <> length ys -> length ys <> 1%nat -> length xs <> 1%nat ->
    broadcast_axis f xs ys = Err ValueError.
Proof.
  intros xs ys Hne Hy Hx. unfold broadcast_axis.
  destruct (Nat.eqb_spec (length xs) (length ys)) as [Heq|_]; [congruence|].
  destruct xs as [|x [|x' xs]]; simpl in Hx; try congruence;
    destruct ys as [|y [|y' ys]]; simpl in Hy; try congruence; reflexivity.
Qed.

Lemma at_px_img_map {A B : Type} (f : A -> B) (img : image A) (y x : nat) :
  at_px (img_map f img) y x = option_map f (at_px img y x).
Proof.
  unfold at_px, img_map. rewrite nth_error_map.
  destruct (nth_error img y) as [row|]; simpl; [|reflexivity].
  apply nth_error_map.
Qed.

Lemma at_px_img_add (m1 m2 : image Z) (y x : nat) (a b : Z) :
  at_px m1 y x = Some a -> at_px m2 y x = Some b ->
  at_px (img_add m1 m2) y x = Some (uint8_add a b).
Proof.
  unfold at_px, img_add. intros H1 H2.
  destruct (nth_error m1 y) as [r1|] eqn:E1; [|discriminate].
  destruct (nth_error m2 y) as [r2|] eqn:E2; [|discriminate].
  rewrite (nth_error_map2
             (fun r1 r2 => map (fun ab => uint8_add (fst ab) (snd ab)) (combine r1 r2))
             _ _ _ _ _ E1 E2).
  apply (nth_error_map2 uint8_add _ _ _ _ _ H1 H2).
Qed.

Lemma inRange_values (v lo hi : pixel) : inRange v lo hi = 0 \/ inRange v lo hi = 255.
Proof.
  destruct v as [[v0 v1] v2], lo as [[l0 l1] l2], hi as [[h0 h1] h2]. unfold inRange.
  match goal with |- context [if ?c then _ else _] => destruct c end; auto.
Qed.

(** For a colour with two hue ranges the mask is "on" at a pixel exactly
    when the pixel lies in one of the ranges: the sum of the two masks wraps
    around to 254, not to 0, where both ranges hold.  The segmentation
    returns that mask for every image with a pixel, and raises [cv2.error]
    for an image without one. *)
Theorem two_ranges_are_joined (cvt : pixel -> pixel) (lo0 lo1 hi0 hi1 : pixel)
  (bg : image pixel) :
  exists mask,
    segment cvt (Bounds2 lo0 lo1) (Bounds2 hi0 hi1) bg
    = (if no_pixels bg then Err Cv2Error else Ok mask)
    /\ forall y x p,
        at_px bg y x = Some p ->
        exists v,
          at_px mask y x = Some v
          /\ (v <> 0 <-> inRange (cvt p) lo0 hi0 = 255 \/ inRange (cvt p) lo1 hi1 = 255)
          /\ (v = 254 <-> inRange (cvt p) lo0 hi0 = 255 /\ inRange (cvt p) lo1 hi1 = 255)
          /\ (v = 0 \/ v = 255 \/ v = 254).
Proof.
  eexists. split; [unfold segment; destruct (no_pixels bg); reflexivity|].
  intros y x p Hp. eexists. split.
  - apply at_px_img_add; rewrite at_px_img_map, Hp; reflexivity.
  - destruct (inRange_values (cvt p) lo0 hi0) as [-> | ->];
      destruct (inRange_values (cvt p) lo1 hi1) as [-> | ->].
    + change (uint8_add 0 0) with 0. intuition lia.
    + change (uint8_add 0 255) with 255. intuition lia.
    + change (uint8_add 255 0) with 255. intuition lia.
    + change (uint8_add 255 255) with 254. intuition lia.
Qed.

(** ** The median against outliers *)

Lemma smaller_occurrences_le (v : Z) (l : list Z) :
  (smaller v l + occurrences v l <= length l)%nat.
Proof.
  unfold smaller, occurrences. induction l as [|x l IH]; simpl; [lia|].
  destruct (Z.eq_dec x v) as [->|Hne].
  - rewrite Z.ltb_irrefl. simpl. lia.
  - destruct (x <? v); simpl; lia.
Qed.

Lemma above_has_none (v a : Z) (s : list Z) :
  Forall (Z.le a) s -> v <= a ->
  smaller v s = 0%nat /\ (v < a -> occurrences v s = 0%nat).
Proof.
  unfold smaller, occurrences. induction 1 as [|x s Hx _ IH]; intros Hva; simpl.
  - auto.
  - destruct (IH Hva) as [IH1 IH2].
    destruct (Z.ltb_spec x v) as [Hlt|_]; [lia|]. split; [exact IH1|].
    intros Hlt. destruct (Z.eq_dec x v) as [->|_]; [lia|]. apply IH2. exact Hlt.
Qed.

(** In a sorted list the samples equal to [v] stand together, after the
    smaller ones. *)
Lemma sorted_block (v : Z) :
  forall s, StronglySorted Z.le s ->
    forall j, (smaller v s <= j < smaller v s + occurrences v s)%nat ->
      nth j s 0 = v.
Proof.
  induction 1 as [|a s Hs IH Ha]; intros j Hj.
  - unfold smaller, occurrences in Hj. simpl in Hj. lia.
  - destruct (Z.lt_trichotomy a v) as [Hlt|[->|Hgt]].
    + assert (Hsm : smaller v (a :: s) = S (smaller v s)).
      { unfold smaller. simpl. destruct (Z.ltb_spec a v); [reflexivity|lia]. }
      assert (Hoc : occurrences v (a :: s) = occurrences v s).
      { unfold occurrences. simpl. destruct (Z.eq_dec a v); [lia|reflexivity]. }
      rewrite Hsm, Hoc in Hj. destruct j as [|j]; [lia|]. simpl. apply IH. lia.
    + destruct (above_has_none v v s Ha (Z.le_refl v)) as [Hsm _].
      assert (Hsm' : smaller v (v :: s) = 0%nat).
      { unfold smaller in *. simpl. rewrite Z.ltb_irrefl. exact Hsm. }
      assert (Hoc : occurrences v (v :: s) = S (occurrences v s)).
      { unfold occurrences. simpl. destruct (Z.eq_dec v v); [reflexivity|congruence]. }
      rewrite Hsm', Hoc in Hj. destruct j as [|j]; [reflexivity|]. simpl.
      apply IH. rewrite Hsm. lia.
    + destruct (above_has_none v a s Ha ltac:(lia)) as [Hsm Hoc].
      assert (Hsm' : smaller v (a :: s) = 0%nat).
      { unfold smaller in *. simpl. destruct (Z.ltb_spec a v); [lia|exact Hsm]. }
      assert (Hoc' : occurrences v (a :: s) = 0%nat).
      { unfold occurrences in *. simpl. destruct (Z.eq_dec a v); [lia|].
        apply Hoc. lia. }
      rewrite Hsm', Hoc' in Hj. lia.
Qed.

Lemma sort_occurrences (v : Z) (l : list Z) : occurrences v (sort l) = occurrences v l.
Proof.
  unfold occurrences. symmetry.
  apply (proj1 (Permutation_count_occ Z.eq_dec l (sort l)) (sort_perm l)).
Qed.

Lemma nth_sort_majority (v : Z) (l : list Z) (j : nat) :
  (length l - occurrences v l <= j < occurrences v l)%nat ->
  nth j (sort l) 0 = v.
Proof.
  intros Hj. apply sorted_block.
  - apply Sorted_StronglySorted; [intros x y z; apply Z.le_trans|apply sort_Sorted].
  - pose proof (smaller_occurrences_le v (sort l)) as Hle.
    rewrite sort_occurrences, sort_length in *. lia.
Qed.

Lemma half_and_parity (n : nat) : n = (2 * (n / 2) + Nat.b2n (Nat.odd n))%nat.
Proof. rewrite <- Nat.div2_div. apply Nat.div2_odd. Qed.

Lemma py_int_double (v : Z) : py_int (Qmake (v + v) 2) = v.
Proof. unfold py_int. simpl. Z.to_euclidean_division_equations. lia. Qed.

Lemma np_median_majority (v : Z) (l : list Z) :
  (length l < 2 * occurrences v l)%nat ->
  exists q, np_median l = Ok q /\ py_int q = v.
Proof.
  intros Hmaj. unfold np_median.
  pose proof (smaller_occurrences_le v l) as Hocc.
  destruct (length l) as [|n] eqn:Hlen; [lia|]. rewrite <- Hlen. clear Hocc.
  pose proof (half_and_parity (length l)) as Hpar.
  destruct (Nat.odd (length l)); simpl Nat.b2n in Hpar.
  - eexists. split; [reflexivity|]. rewrite py_int_inject_Z.
    apply nth_sort_majority. lia.
  - eexists. split; [reflexivity|].
    rewrite !(nth_sort_majority v) by lia. apply py_int_double.
Qed.

Lemma median_centroid_majority (h : list (Z * Z)) (vx vy : Z) :
  (length h < 2 * occurrences vx (map fst h))%nat ->
  (length h < 2 * occurrences vy (map snd h))%nat ->
  median_centroid h = Ok (vx, vy).
Proof.
  intros Hx Hy. unfold median_centroid.
  destruct (np_median_majority vx (map fst h)) as (qx & -> & <-);
    [rewrite length_map; exact Hx|].
  destruct (np_median_majority vy (map snd h)) as (qy & -> & <-);
    [rewrite length_map; exact Hy|].
  reflexivity.
Qed.

(** The smoothed centroid follows the majority: when more than half of the
    samples of the history have the x coordinate [vx], and more than half
    have the y coordinate [vy], the emitted pixel is ([vx], [vy]), whatever
    the other samples are. *)
Theorem median_follows_majority (h : list (Z * Z)) (vx vy : Z) :
  (length h < 2 * occurrences vx (map fst h))%nat ->
  (length h < 2 * occurrences vy (map snd h))%nat ->
  median_centroid h = Ok (vx, vy).
Proof. apply median_centroid_majority. Qed.

Lemma shifted_skipn (c : Z * Z) :
  forall k h, (k <= length h)%nat -> shifted k h c = skipn k h ++ repeat c k.
Proof.
  induction k as [|k IH]; intros h Hk; simpl shifted.
  - simpl. rewrite app_nil_r. reflexivity.
  - destruct h as [|a h]; simpl in Hk; [lia|]. simpl tl.
    rewrite IH by (rewrite length_app; simpl; lia).
    rewrite skipn_app.
    replace (k - length h)%nat with 0%nat by lia.
    change (skipn 0 [c]) with [c]. change (skipn (S k) (a :: h)) with (skipn k h).
    rewrite <- app_assoc. reflexivity.
Qed.

(** After as many recorded detections of [c] as the history is long, every
    sample is [c]. *)
Lemma shifted_full (c : Z * Z) (h : list (Z * Z)) :
  shifted (length h) h c = repeat c (length h).
Proof.
  rewrite shifted_skipn by lia. rewrite skipn_all. reflexivity.
Qed.

Lemma median_centroid_repeat (c : Z * Z) (n : nat) :
  (0 < n)%nat -> median_centroid (repeat c n) = Ok c.
Proof.
  intros Hn. destruct c as [x y]. apply median_centroid_majority;
    rewrite repeat_length, map_repeat; unfold occurrences;
    rewrite count_occ_repeat_eq by reflexivity; lia.
Qed.

(** ** More on the methods of the node *)

Section MoreProperties.

Context {Illum : Type} (E : Env Illum).

Implicit Types (st : Camera Illum) (evs : list event).

(** Two toggles in a row leave the node exactly as it was and send
    nothing. *)
Theorem toggle_twice_is_identity st :
  spin E [Toggle; Toggle] st = (Ok tt, st, []).
Proof.
  unfold spin. simpl. unfold bind. rewrite !toggle_tf_publish_run. simpl.
  rewrite negb_involutive. destruct st. reflexivity.
Qed.

Lemma find_color_centroid_centroid_of (lo hi : bounds) st c st' pre :
  find_color_centroid E lo hi st = (Ok c, st', pre) ->
  centroid_of E lo hi st = Ok c.
Proof.
  intros H. pose proof (find_color_centroid_spec E lo hi st) as Hs.
  unfold wp in Hs. rewrite H in Hs. destruct Hs as [_ Hs]. unfold centroid_of.
  destruct (mask_of E lo hi st) as [mask|e]; [|destruct Hs; discriminate].
  simpl. destruct (np_any mask).
  - destruct Hs as [(bg & img & _ & _ & Hr & _)|(e & Hr & _)]; congruence.
  - destruct Hs as [Hr _]. congruence.
Qed.

Lemma stable_centroid_of (lo hi : bounds) st0 st :
  stable st0 st -> centroid_of E lo hi st = centroid_of E lo hi st0.
Proof.
  intros H. unfold centroid_of. rewrite (stable_mask_of E _ _ lo hi H).
  destruct (mask_of E lo hi st0) as [mask|]; [|reflexivity]. simpl.
  unfold cropped_centroid, crop_rect. destruct H as (-> & _). reflexivity.
Qed.

Lemma find_color_centroid_events (lo hi : bounds) st r st' evs :
  find_color_centroid E lo hi st = (r, st', evs) ->
  st' = st /\ (evs = [] \/ exists c img, r = Ok c /\ evs = [PublishImage img]).
Proof.
  intros H. pose proof (find_color_centroid_spec E lo hi st) as Hs.
  unfold wp in Hs. rewrite H in Hs. destruct Hs as [-> Hs].
  split; [reflexivity|].
  destruct (mask_of E lo hi st) as [mask|e]; [|left; tauto].
  destruct (np_any mask); [|left; tauto].
  destruct Hs as [(bg & img & _ & _ & -> & ->)|(e & _ & -> & _)]; eauto.
Qed.

Lemma centroid_of_reads (lo hi : bounds) st st2 :
  color_image (cv2_client st2) = color_image (cv2_client st) ->
  depth_image (cv2_client st2) = depth_image (cv2_client st) ->
  clipping_distance st2 = clipping_distance st ->
  crop st2 = crop st ->
  centroid_of E lo hi st2 = centroid_of E lo hi st.
Proof.
  intros Hc Hd Hk Hr.
  unfold centroid_of, mask_of, gated, cropped_centroid, crop_rect.
  rewrite Hc, Hd, Hk, Hr. reflexivity.
Qed.

(** find_color_centroid reads and publishes, and nothing else: it leaves
    the node state as it is, sends no transform, publishes at most one
    image and none when it raises; and what it returns is decided by the
    buffers, the clipping distance and the rectangle alone: two nodes that
    agree on these get the same centroid, whatever their histories, flags,
    intrinsics, fallback points and clocks are. *)
Theorem find_color_centroid_is_read_only (lo hi : bounds) st r st' evs :
  find_color_centroid E lo hi st = (r, st', evs) ->
  st' = st
  /\ transforms evs = []
  /\ (evs = [] \/ exists c img, r = Ok c /\ evs = [PublishImage img])
  /\ (forall st2 c c2 s2 pre2,
        color_image (cv2_client st2) = color_image (cv2_client st) ->
        depth_image (cv2_client st2) = depth_image (cv2_client st) ->
        clipping_distance st2 = clipping_distance st ->
        crop st2 = crop st ->
        r = Ok c ->
        find_color_centroid E lo hi st2 = (Ok c2, s2, pre2) ->
        c2 = c).
Proof.
  intros H. destruct (find_color_centroid_events lo hi st r st' evs H) as [-> Hev].
  split; [reflexivity|].
  split; [|split; [exact Hev|]].
  - destruct Hev as [->|(c & img & _ & ->)]; reflexivity.
  - intros st2 c c2 s2 pre2 Hc Hd Hk Hr -> H2.
    apply find_color_centroid_centroid_of in H, H2.
    rewrite (centroid_of_reads lo hi st st2 Hc Hd Hk Hr) in H2. congruence.
Qed.

Lemma after_update_histories (idx : nat) (color : string) s1 r st' evs :
  bind (smoothed idx)
    (fun median =>
       broadcast_color_frame E base_frame_name (frame_name color)
         (fst median) (snd median)) s1 = (r, st', evs) ->
  histories st' = histories s1
  /\ (forall e, r = Err e ->
        evs = [] /\ prev_xyz st' = prev_xyz s1 /\ clock_reads st' = clock_reads s1).
Proof.
  unfold bind at 1. rewrite smoothed_run.
  destruct (rbind (getitem (histories s1) idx) median_centroid) as [mc|e].
  - pose proof (broadcast_color_frame_histories E base_frame_name (frame_name color)
                  (fst mc) (snd mc) s1) as Hb. unfold wp in Hb.
    rewrite broadcast_color_frame_run in *.
    destruct (get_3d_coordinates_at_pixel E (cv2_client s1) (fst mc) (snd mc)
                (frame_name color)) as [xyz|e'].
    + intros H. injection H as <- <- <-. split; [exact Hb|]. discriminate.
    + intros H. injection H as <- <- <-. auto.
  - intros H. injection H as <- <- <-. auto.
Qed.

(** The rule of lines 157-162, for a call in which find_color_centroid
    returned [c]: when both coordinates of [c] are different from 0 and the
    flag is true, the colour's history loses its oldest sample and gets [c]
    at its end (an empty history is left alone: the call raises); otherwise
    every history is what it was.  This holds however the call ends, and no
    other history is touched. *)
Theorem history_update_rule (lo hi : bounds) (color : string) st
  (idx : nat) (c : Z * Z) (pre : list event) (h : list (Z * Z)) :
  dict_get (COLORS E) color = Ok idx ->
  find_color_centroid E lo hi st = (Ok c, st, pre) ->
  getitem (histories st) idx = Ok h ->
  forall r st' evs,
    broadcast_color E lo hi color st = (r, st', evs) ->
    histories st' =
      if negb (fst c =? 0) && negb (snd c =? 0) && update_colors st then
        match h with
        | [] => histories st
        | _ :: t => setitem (histories st) idx (t ++ [c])
        end
      else histories st.
Proof.
  intros Hidx Hf Hget r st' evs Hrun. unfold broadcast_color in Hrun.
  unfold bind at 1, lift at 1 in Hrun. rewrite Hidx in Hrun.
  unfold bind at 1 in Hrun. rewrite Hf in Hrun.
  unfold bind at 1 in Hrun. rewrite update_history_run, Hget in Hrun.
  fold (centroid_nonzero c).
  destruct (centroid_nonzero c && update_colors st).
  - destruct h as [|a t]; simpl shift in Hrun; cbv iota in Hrun.
    + injection Hrun as _ <- _. reflexivity.
    + match type of Hrun with
      | context [bind (smoothed idx) ?f ?s] =>
          destruct (bind (smoothed idx) f s) as [[r2 s2] ev2] eqn:Hk
      end.
      destruct (after_update_histories idx color _ _ _ _ Hk) as [Hh _].
      injection Hrun as _ <- _. rewrite Hh. reflexivity.
  - match type of Hrun with
    | context [bind (smoothed idx) ?f ?s] =>
        destruct (bind (smoothed idx) f s) as [[r2 s2] ev2] eqn:Hk
    end.
    destruct (after_update_histories idx color _ _ _ _ Hk) as [Hh _].
    injection Hrun as _ <- _. exact Hh.
Qed.

Lemma update_history_clock (idx : nat) (c : Z * Z) st :
  wp (update_history idx c)
     (fun _ st' evs => evs = [] /\ prev_xyz st' = prev_xyz st
                       /\ clock_reads st' = clock_reads st) st.
Proof.
  unfold wp. rewrite update_history_run.
  destruct (centroid_nonzero c && update_colors st); [|auto].
  destruct (getitem (histories st) idx) as [h|e]; [|auto].
  destruct (shift h c); simpl; auto.
Qed.

Lemma broadcast_color_raises_quietly (lo hi : bounds) (color : string) st e st' evs :
  broadcast_color E lo hi color st = (Err e, st', evs) ->
  transforms evs = []
  /\ prev_xyz st' = prev_xyz st
  /\ clock_reads st' = clock_reads st.
Proof.
  intros Hrun. unfold broadcast_color in Hrun.
  unfold bind at 1, lift at 1 in Hrun.
  destruct (dict_get (COLORS E) color) as [idx|e0];
    [|injection Hrun as _ <- <-; auto].
  unfold bind at 1 in Hrun.
  destruct (find_color_centroid E lo hi st) as [[rc s0] pre] eqn:Hf.
  destruct (find_color_centroid_events lo hi st rc s0 pre Hf) as (-> & Hpre).
  assert (Hnt : transforms pre = [])
    by (destruct Hpre as [->|(c0 & img & _ & ->)]; reflexivity).
  destruct rc as [c|e0].
  2:{ destruct Hpre as [->|(c0 & img & Hc0 & _)]; [|discriminate].
      injection Hrun as _ <- <-. auto. }
  unfold bind at 1 in Hrun.
  pose proof (update_history_clock idx c st) as Hu. unfold wp in Hu.
  destruct (update_history idx c st) as [[[[]|e1] s1] ev1];
    destruct Hu as (-> & Hp1 & Hc1).
  - match type of Hrun with
    | context [bind (smoothed idx) ?f ?s] =>
        destruct (bind (smoothed idx) f s) as [[r2 s2] ev2] eqn:Hk
    end.
    destruct (after_update_histories idx color _ _ _ _ Hk) as [_ Herr].
    injection Hrun as -> <- <-.
    destruct (Herr e eq_refl) as (-> & Hp2 & Hc2).
    rewrite !app_nil_r. repeat split; congruence.
  - injection Hrun as _ <- <-. rewrite app_nil_r. auto.
Qed.

(** A call of broadcast_color that raises has sent no transform, and has
    left the fallback point and the clock as they were. *)
Theorem raise_sends_no_transform (lo hi : bounds) (color : string) st e st' evs :
  broadcast_color E lo hi color st = (Err e, st', evs) ->
  transforms evs = []
  /\ prev_xyz st' = prev_xyz st
  /\ clock_reads st' = clock_reads st.
Proof. apply broadcast_color_raises_quietly. Qed.

(** A depth image and a colour image of different heights, neither of
    height 1, cannot be broadcast together: find_color_centroid raises
    ValueError, and so do broadcast_color and a tick whose first configured
    colour has an index, before anything is written or sent. *)
Theorem shape_mismatch_raises (lo hi : bounds) (color : string) (idx : nat) st :
  shape0 (depth_image (cv2_client st)) <> shape0 (color_image (cv2_client st)) ->
  shape0 (depth_image (cv2_client st)) <> 1%nat ->
  shape0 (color_image (cv2_client st)) <> 1%nat ->
  dict_get (COLORS E) color = Ok idx ->
  find_color_centroid E lo hi st = (Err ValueError, st, [])
  /\ broadcast_color E lo hi color st = (Err ValueError, st, [])
  /\ (forall rest,
        has_images st = true ->
        keys (COLORS_HSV E) = color :: rest ->
        timer_callback E st = (Err ValueError, st, [])).
Proof.
  intros Hne Hd Hc Hidx.
  assert (Hg : gated st = Err ValueError).
  { unfold gated, bg_removed. apply zip_with_length_mismatch; assumption. }
  assert (Hf : forall lo hi, find_color_centroid E lo hi st = (Err ValueError, st, [])).
  { intros lo' hi'. unfold find_color_centroid, bind, lift, get. rewrite Hg. reflexivity. }
  assert (Hb : forall lo hi, broadcast_color E lo hi color st = (Err ValueError, st, [])).
  { intros lo' hi'. unfold broadcast_color. unfold bind at 1, lift at 1. rewrite Hidx.
    unfold bind at 1. rewrite Hf. reflexivity. }
  split; [apply Hf|]. split; [apply Hb|].
  intros rest Himg Hkeys. rewrite timer_callback_unfold, Himg, Hkeys. simpl.
  unfold bind at 1. unfold tick_body. unfold bind at 1, lift at 1.
  destruct (dict_get_In (COLORS_HSV E) color) as [hsv ->];
    [rewrite Hkeys; left; reflexivity|].
  unfold bind at 1. rewrite Hb. reflexivity.
Qed.

(** When the depth-gated image has no pixel (rows without a column, as for
    two buffers of shape (H, 0), or a one-column colour image against a depth
    image without columns), [cv2.cvtColor] raises: find_color_centroid raises
    [cv2.error], and so do broadcast_color and a tick whose first configured
    colour has an index, before anything is written or sent. *)
Theorem image_without_pixels_raises (lo hi : bounds) (color : string) (idx : nat)
  st (bg : image pixel) :
  gated st = Ok bg ->
  no_pixels bg = true ->
  dict_get (COLORS E) color = Ok idx ->
  find_color_centroid E lo hi st = (Err Cv2Error, st, [])
  /\ broadcast_color E lo hi color st = (Err Cv2Error, st, [])
  /\ (forall rest,
        has_images st = true ->
        keys (COLORS_HSV E) = color :: rest ->
        timer_callback E st = (Err Cv2Error, st, [])).
Proof.
  intros Hg Hn Hidx.
  assert (Hf : forall lo hi, find_color_centroid E lo hi st = (Err Cv2Error, st, [])).
  { intros lo' hi'. unfold find_color_centroid, bind, lift, get. rewrite Hg.
    unfold segment. rewrite Hn. reflexivity. }
  assert (Hb : forall lo hi, broadcast_color E lo hi color st = (Err Cv2Error, st, [])).
  { intros lo' hi'. unfold broadcast_color. unfold bind at 1, lift at 1. rewrite Hidx.
    unfold bind at 1. rewrite Hf. reflexivity. }
  split; [apply Hf|]. split; [apply Hb|].
  intros rest Himg Hkeys. rewrite timer_callback_unfold, Himg, Hkeys. simpl.
  unfold bind at 1. unfold tick_body. unfold bind at 1, lift at 1.
  destruct (dict_get_In (COLORS_HSV E) color) as [hsv ->];
    [rewrite Hkeys; left; reflexivity|].
  unfold bind at 1. rewrite Hb. reflexivity.
Qed.

(** A tick, however it ends, leaves the rectangle, the clipping distance,
    the flag, both image buffers and the intrinsics as they are, and the
    length of every history. *)
Theorem tick_leaves_inputs st r st' evs :
  timer_callback E st = (r, st', evs) ->
  crop st' = crop st
  /\ clipping_distance st' = clipping_distance st
  /\ update_colors st' = update_colors st
  /\ color_image (cv2_client st') = color_image (cv2_client st)
  /\ depth_image (cv2_client st') = depth_image (cv2_client st)
  /\ camera_intrinsics (cv2_client st') = camera_intrinsics (cv2_client st)
  /\ map (@length (Z * Z)) (histories st') = map (@length (Z * Z)) (histories st).
Proof.
  intros H. pose proof (wp_run _ _ _ _ _ _ H (timer_callback_stable E st)) as Hs.
  unfold stable in Hs. tauto.
Qed.

(** What every callback does to the flag and the buffers. *)
Lemma handle_step (q : request) st :
  wp (handle E q)
     (fun _ st' _ =>
        crop st' = crop st
        /\ clipping_distance st' = clipping_distance st
        /\ map (@length (Z * Z)) (histories st') = map (@length (Z * Z)) (histories st)
        /\ update_colors st' = toggled [q] (update_colors st)
        /\ color_image (cv2_client st') = latest_color [q] (color_image (cv2_client st))
        /\ depth_image (cv2_client st') = latest_depth [q] (depth_image (cv2_client st))
        /\ camera_intrinsics (cv2_client st')
           = latest_intrinsics [q] (camera_intrinsics (cv2_client st))) st.
Proof.
  destruct q; simpl.
  - eapply wp_conseq; [|apply timer_callback_stable].
    unfold stable. simpl. tauto.
  - unfold wp. rewrite toggle_tf_publish_run. simpl. tauto.
  - unfold wp, camera_info_callback, modify. simpl. tauto.
  - unfold wp, get_depth_info, modify. simpl. tauto.
  - unfold wp, get_color_info, modify. simpl. tauto.
Qed.

(** Whatever requests arrive and however serving them ends, the rectangle,
    the clipping distance, the number of histories and the length of each
    history stay what they were. *)
Theorem spin_keeps_capacity (rs : list request) st r st' evs :
  spin E rs st = (r, st', evs) ->
  crop st' = crop st
  /\ clipping_distance st' = clipping_distance st
  /\ map (@length (Z * Z)) (histories st') = map (@length (Z * Z)) (histories st)
  /\ length (histories st') = length (histories st).
Proof.
  intros H.
  assert (Hk : keeps (fun s => crop s = crop st
                               /\ clipping_distance s = clipping_distance st
                               /\ map (@length (Z * Z)) (histories s)
                                  = map (@length (Z * Z)) (histories st))
                     (spin E rs)).
  { unfold spin. apply keeps_for_each. intros q s (H1 & H2 & H3).
    eapply wp_conseq; [|apply handle_step]. simpl.
    intros r0 s' ev0 (A1 & A2 & A3 & _). repeat split; congruence. }
  destruct (wp_run _ _ _ _ _ _ H (Hk st (conj eq_refl (conj eq_refl eq_refl))))
    as (H1 & H2 & H3).
  repeat split; try assumption.
  rewrite <- (length_map (@length (Z * Z)) (histories st')), H3. apply length_map.
Qed.

Lemma toggled_cons (q : request) (rs : list request) (b : bool) :
  toggled (q :: rs) b = toggled rs (toggled [q] b).
Proof. destruct q; reflexivity. Qed.

Lemma latest_color_cons (q : request) (rs : list request) img :
  latest_color (q :: rs) img = latest_color rs (latest_color [q] img).
Proof. destruct q; reflexivity. Qed.

Lemma latest_depth_cons (q : request) (rs : list request) img :
  latest_depth (q :: rs) img = latest_depth rs (latest_depth [q] img).
Proof. destruct q; reflexivity. Qed.

Lemma latest_intrinsics_cons (q : request) (rs : list request) k :
  latest_intrinsics (q :: rs) k = latest_intrinsics rs (latest_intrinsics [q] k).
Proof. destruct q; reflexivity. Qed.

(** After a sequence of requests that was served to its end, the flag has
    been negated once per toggle and by nothing else, and each buffer holds
    the last message of its feed, or what it held before when no message of
    that feed arrived: no tick writes to them. *)
Theorem spin_follows_requests (rs : list request) :
  forall st st' evs,
    spin E rs st = (Ok tt, st', evs) ->
    update_colors st' = toggled rs (update_colors st)
    /\ color_image (cv2_client st') = latest_color rs (color_image (cv2_client st))
    /\ depth_image (cv2_client st') = latest_depth rs (depth_image (cv2_client st))
    /\ camera_intrinsics (cv2_client st')
       = latest_intrinsics rs (camera_intrinsics (cv2_client st)).
Proof.
  unfold spin. induction rs as [|q rs IH]; intros st st' evs H.
  - simpl in H. injection H as <- _. simpl. auto.
  - simpl in H. unfold bind at 1 in H.
    pose proof (handle_step q st) as Hq. unfold wp in Hq.
    destruct (handle E q st) as [[[[]|e] s1] ev1]; [|discriminate].
    destruct Hq as (_ & _ & _ & Hf & Hc & Hd & Hk).
    destruct (for_each rs (handle E) s1) as [[r2 s2] ev2] eqn:Hrest.
    injection H as -> <- _.
    destruct (IH _ _ _ Hrest) as (Hf2 & Hc2 & Hd2 & Hk2).
    rewrite toggled_cons, latest_color_cons, latest_depth_cons, latest_intrinsics_cons.
    rewrite Hf2, Hc2, Hd2, Hk2, Hf, Hc, Hd, Hk. auto.
Qed.

Lemma spin_without_images (rs : list request) :
  forall st,
    has_images st = false ->
    (shape0 (color_image (cv2_client st)) = 0%nat /\ forallb (fun q => negb (is_color_msg q)) rs = true)
    \/ (shape0 (depth_image (cv2_client st)) = 0%nat /\ forallb (fun q => negb (is_depth_msg q)) rs = true) ->
    exists st',
      spin E rs st = (Ok tt, st', [])
      /\ histories st' = histories st
      /\ prev_xyz st' = prev_xyz st
      /\ clock_reads st' = clock_reads st.
Proof.
  unfold spin. induction rs as [|q rs IH]; intros st Himg Hcase; simpl.
  - eexists. repeat split.
  - assert (Hq : exists s1, handle E q st = (Ok tt, s1, [])
                   /\ histories s1 = histories st /\ prev_xyz s1 = prev_xyz st
                   /\ clock_reads s1 = clock_reads st
                   /\ has_images s1 = false
                   /\ ((shape0 (color_image (cv2_client s1)) = 0%nat
                        /\ forallb (fun q => negb (is_color_msg q)) rs = true)
                       \/ (shape0 (depth_image (cv2_client s1)) = 0%nat
                           /\ forallb (fun q => negb (is_depth_msg q)) rs = true))).
    { simpl in Hcase. rewrite !andb_true_iff in Hcase.
      destruct q; simpl handle; simpl in Hcase.
      - exists st. rewrite timer_callback_unfold, Himg.
        do 4 (split; [reflexivity|]). split; [first [exact Himg|reflexivity]|]. tauto.
      - eexists. rewrite toggle_tf_publish_run.
        do 4 (split; [reflexivity|]). split; [first [exact Himg|reflexivity]|]. tauto.
      - eexists. unfold camera_info_callback, modify.
        do 4 (split; [reflexivity|]). split; [first [exact Himg|reflexivity]|]. tauto.
      - eexists. unfold get_depth_info, modify.
        do 4 (split; [reflexivity|]).
        destruct Hcase as [[Hc [_ Hrs]]|[_ [Hrs _]]]; [|discriminate].
        split; [|left; split; assumption].
        unfold has_images. simpl. rewrite Hc. reflexivity.
      - eexists. unfold get_color_info, modify.
        do 4 (split; [reflexivity|]).
        destruct Hcase as [[_ [Hrs _]]|[Hd [_ Hrs]]]; [discriminate|].
        split; [|right; split; assumption].
        unfold has_images. simpl. rewrite Hd. simpl. apply andb_false_r. }
    destruct Hq as (s1 & Hrun & Hh & Hp & Hc & Himg1 & Hcase1).
    destruct (IH s1 Himg1 Hcase1) as (st' & Hrest & Hh' & Hp' & Hc').
    exists st'. unfold bind. rewrite Hrun, Hrest. simpl.
    repeat split; congruence.
Qed.

(** Until the first colour image has arrived, whatever else arrives (depth
    images, intrinsics, toggles, ticks), every request is served without an
    exception and nothing is sent; the histories, the fallback point and
    the clock stay what they were. *)
Theorem nothing_sent_before_first_color_image (rs : list request) st :
  shape0 (color_image (cv2_client st)) = 0%nat ->
  forallb (fun q => negb (is_color_msg q)) rs = true ->
  exists st',
    spin E rs st = (Ok tt, st', [])
    /\ histories st' = histories st
    /\ prev_xyz st' = prev_xyz st
    /\ clock_reads st' = clock_reads st.
Proof.
  intros Hc Hrs. apply spin_without_images.
  - unfold has_images. rewrite Hc. reflexivity.
  - left. split; assumption.
Qed.

(** The same until the first depth image has arrived. *)
Theorem nothing_sent_before_first_depth_image (rs : list request) st :
  shape0 (depth_image (cv2_client st)) = 0%nat ->
  forallb (fun q => negb (is_depth_msg q)) rs = true ->
  exists st',
    spin E rs st = (Ok tt, st', [])
    /\ histories st' = histories st
    /\ prev_xyz st' = prev_xyz st
    /\ clock_reads st' = clock_reads st.
Proof.
  intros Hd Hrs. apply spin_without_images.
  - unfold has_images. rewrite Hd. simpl. apply andb_false_r.
  - right. split; assumption.
Qed.

(** *** A steady detection fills the history *)

Implicit Types (s : Camera Illum).

Lemma stable_has_images st0 st : stable st0 st -> has_images st = has_images st0.
Proof.
  intros (_ & _ & _ & Hc & Hd & _). unfold has_images. rewrite Hc, Hd. reflexivity.
Qed.

(** What a completed iteration of the loop did to the histories. *)
Lemma tick_body_history (x : string) s s' ev :
  tick_body E x s = (Ok tt, s', ev) ->
  exists hsv idx c pre s1,
    dict_get (COLORS_HSV E) x = Ok hsv
    /\ dict_get (COLORS E) x = Ok idx
    /\ find_color_centroid E (fst hsv) (snd hsv) s = (Ok c, s, pre)
    /\ update_history idx c s = (Ok tt, s1, [])
    /\ histories s' = histories s1.
Proof.
  intros H. unfold tick_body in H. unfold bind at 1, lift at 1 in H.
  destruct (dict_get (COLORS_HSV E) x) as [hsv|] eqn:Hhsv; [|discriminate].
  unfold bind at 1 in H.
  destruct (broadcast_color E (fst hsv) (snd hsv) x s) as [[[[]|e] s2] ev2] eqn:Hb;
    [|discriminate].
  pose proof (call_detect_illumination_stable E x s2) as Hc. unfold wp in Hc.
  destruct (call_detect_illumination E x s2) as [[r3 s3] ev3].
  destruct Hc as (_ & Hh3 & _ & _). injection H as _ <- _.
  destruct (broadcast_color_completed E _ _ _ _ _ _ Hb)
    as (idx & c & pre & s1 & mc & xyz & Hidx & Hf & Hu & _ & _ & Hbf & _ & _).
  pose proof (broadcast_color_frame_histories E base_frame_name (frame_name x)
                (fst mc) (snd mc) s1) as Hh. unfold wp in Hh. rewrite Hbf in Hh.
  exists hsv, idx, c, pre, s1. repeat split; try assumption. congruence.
Qed.

Lemma update_history_at (idx' idx : nat) (c : Z * Z) s s1 :
  update_history idx' c s = (Ok tt, s1, []) ->
  (idx' <> idx -> getitem (histories s1) idx = getitem (histories s) idx)
  /\ (idx' = idx -> centroid_nonzero c = true -> update_colors s = true ->
      exists a t, getitem (histories s) idx = Ok (a :: t)
                  /\ getitem (histories s1) idx = Ok (t ++ [c])).
Proof.
  rewrite update_history_run. intros H. split.
  - intros Hne. destruct (centroid_nonzero c && update_colors s);
      [|injection H as <-; reflexivity].
    destruct (getitem (histories s) idx') as [h|]; [|discriminate].
    destruct (shift h c) as [h'|]; [|discriminate].
    injection H as <-. unfold histories at 1. simpl.
    apply getitem_setitem_other. exact Hne.
  - intros -> Hc Hf. rewrite Hc, Hf in H. simpl andb in H. cbv iota in H.
    destruct (getitem (histories s) idx) as [[|a t]|] eqn:Hg; try discriminate.
    simpl in H. injection H as <-. exists a, t. split; [reflexivity|].
    unfold histories at 1. simpl. apply getitem_Ok in Hg.
    eapply getitem_setitem_same. exact Hg.
Qed.

Section Steady.

Variables (st0 : Camera Illum) (color : string) (hsv : bounds * bounds)
  (idx : nat) (c : Z * Z).

Hypothesis Hflag : update_colors st0 = true.
Hypothesis Hhsv : dict_get (COLORS_HSV E) color = Ok hsv.
Hypothesis Hcentroid : centroid_of E (fst hsv) (snd hsv) st0 = Ok c.
Hypothesis Hnonzero : centroid_nonzero c = true.

Lemma steady_loop (xs : list string) :
  forall s s' ev h,
    stable st0 s ->
    for_each xs (tick_body E) s = (Ok tt, s', ev) ->
    getitem (histories s) idx = Ok h ->
    (filter (uses_index E idx) xs = [] -> getitem (histories s') idx = Ok h)
    /\ (filter (uses_index E idx) xs = [color] ->
        exists a t, h = a :: t /\ getitem (histories s') idx = Ok (t ++ [c])).
Proof.
  induction xs as [|x xs IH]; intros s s' ev h Hst Hrun Hget.
  - simpl in Hrun. injection Hrun as <- _. split; [auto|discriminate].
  - simpl in Hrun. unfold bind at 1 in Hrun.
    destruct (tick_body E x s) as [[[[]|e] s1] ev1] eqn:Hx; [|discriminate].
    destruct (for_each xs (tick_body E) s1) as [[r2 s2] ev2] eqn:Hrest.
    injection Hrun as -> <- _.
    assert (Hst1 : stable st0 s1)
      by exact (wp_run _ _ _ _ _ _ Hx (tick_body_stable E x st0 s Hst)).
    destruct (tick_body_history x s s1 ev1 Hx)
      as (hsv' & idx' & c' & pre & su & Hhsv' & Hidx' & Hf & Hu & Hh).
    destruct (update_history_at idx' idx c' s su Hu) as [Hother Hsame].
    assert (Hfx : filter (uses_index E idx) (x :: xs)
                  = if Nat.eqb idx' idx then x :: filter (uses_index E idx) xs
                    else filter (uses_index E idx) xs).
    { simpl. unfold uses_index at 1. rewrite Hidx'. reflexivity. }
    rewrite Hfx. clear Hfx.
    destruct (Nat.eqb_spec idx' idx) as [->|Hne].
    + split; [discriminate|]. intros Hfil. injection Hfil as -> Hfil.
      assert (hsv' = hsv) by congruence. subst hsv'.
      apply find_color_centroid_centroid_of in Hf.
      rewrite (stable_centroid_of _ _ _ _ Hst) in Hf.
      assert (c' = c) by congruence. subst c'.
      destruct Hst as (_ & _ & Hfl & _). rewrite <- Hfl in Hflag.
      destruct (Hsame eq_refl Hnonzero Hflag) as (a & t & Hg0 & Hg1).
      exists a, t. split; [congruence|].
      rewrite <- Hh in Hg1.
      exact (proj1 (IH s1 s2 ev2 (t ++ [c]) Hst1 Hrest Hg1) Hfil).
    + assert (Hg1 : getitem (histories s1) idx = Ok h)
        by (rewrite Hh, (Hother Hne); exact Hget).
      exact (IH s1 s2 ev2 h Hst1 Hrest Hg1).
Qed.

Hypothesis Himg : has_images st0 = true.
Hypothesis Honly : filter (uses_index E idx) (keys (COLORS_HSV E)) = [color].

Lemma steady_ticks (k : nat) :
  forall s s' evs h,
    stable st0 s ->
    getitem (histories s) idx = Ok h ->
    spin E (repeat Tick k) s = (Ok tt, s', evs) ->
    getitem (histories s') idx = Ok (shifted k h c).
Proof.
  unfold spin. induction k as [|k IH]; intros s s' evs h Hst Hget Hrun; simpl in Hrun.
  - injection Hrun as <- _. exact Hget.
  - unfold bind at 1 in Hrun.
    destruct (timer_callback E s) as [[[[]|e] s1] ev1] eqn:Ht; [|discriminate].
    destruct (for_each (repeat Tick k) (handle E) s1) as [[r2 s2] ev2] eqn:Hrest.
    injection Hrun as -> <- _.
    assert (Hst1 : stable st0 s1).
    { eapply stable_trans; [exact Hst|].
      exact (wp_run _ _ _ _ _ _ Ht (timer_callback_stable E s)). }
    rewrite timer_callback_unfold, (stable_has_images _ _ Hst), Himg in Ht.
    destruct (proj2 (steady_loop _ _ _ _ _ Hst Ht Hget) Honly) as (a & t & -> & Hg1).
    simpl shifted. exact (IH s1 s2 ev2 _ Hst1 Hg1 Hrest).
Qed.

End Steady.

Lemma shifted_repeat (c : Z * Z) (n : nat) :
  forall m, shifted m (repeat c (S n)) c = repeat c (S n).
Proof.
  assert (H : tl (repeat c (S n)) ++ [c] = repeat c (S n)).
  { simpl. clear. induction n as [|n IH]; simpl; [reflexivity|]. f_equal. exact IH. }
  induction m as [|m IH]; [reflexivity|]. simpl shifted. simpl tl in *.
  rewrite H. exact IH.
Qed.

Lemma shifted_plus (c : Z * Z) (a b : nat) :
  forall h, shifted (a + b) h c = shifted b (shifted a h c) c.
Proof.
  induction a as [|a IH]; intros h; [reflexivity|]. simpl. apply IH.
Qed.

Lemma shifted_beyond (c : Z * Z) (h : list (Z * Z)) (k : nat) :
  h <> [] -> (length h <= k)%nat -> shifted k h c = repeat c (length h).
Proof.
  intros Hne Hk. replace k with (length h + (k - length h))%nat by lia.
  rewrite shifted_plus, shifted_full.
  destruct h as [|a h]; [congruence|]. apply shifted_repeat.
Qed.

(** A steady detection fills the history: in a node with the flag true and
    both buffers present, for the one configured colour that has the index
    [idx], whose centroid [c] in the current buffers has no zero coordinate
    (the sentinel (-1, -1) of an unseen colour is such a [c]), [k] ticks
    served to their end record [c] [k] times.  From as many ticks as the
    history is long every sample is [c], and the smoothed centroid of lines
    164-165 is [c] itself. *)
Theorem steady_detection_fills_history (color : string) (hsv : bounds * bounds)
  (idx k : nat) (c : Z * Z) (h : list (Z * Z)) st st' evs :
  update_colors st = true ->
  has_images st = true ->
  dict_get (COLORS_HSV E) color = Ok hsv ->
  filter (uses_index E idx) (keys (COLORS_HSV E)) = [color] ->
  centroid_of E (fst hsv) (snd hsv) st = Ok c ->
  fst c <> 0 -> snd c <> 0 ->
  getitem (histories st) idx = Ok h ->
  spin E (repeat Tick k) st = (Ok tt, st', evs) ->
  getitem (histories st') idx = Ok (shifted k h c)
  /\ ((k <= length h)%nat -> shifted k h c = skipn k h ++ repeat c k)
  /\ (h <> [] -> (length h <= k)%nat ->
      getitem (histories st') idx = Ok (repeat c (length h))
      /\ smoothed idx st' = (Ok c, st', [])).
Proof.
  intros Hflag Himg Hhsv Honly Hcen Hx Hy Hget Hrun.
  assert (Hnz : centroid_nonzero c = true).
  { unfold centroid_nonzero. apply andb_true_iff.
    split; apply negb_true_iff, Z.eqb_neq; assumption. }
  assert (Hfinal : getitem (histories st') idx = Ok (shifted k h c)).
  { eapply (steady_ticks st color hsv idx c); try eassumption. apply stable_refl. }
  split; [exact Hfinal|]. split; [apply shifted_skipn|].
  intros Hne Hk. rewrite (shifted_beyond c h k Hne Hk) in Hfinal.
  split; [exact Hfinal|].
  rewrite smoothed_run, Hfinal. simpl rbind.
  rewrite median_centroid_repeat; [reflexivity|].
  destruct h; [congruence|simpl; lia].
Qed.

(** *** The transforms of a tick, however it ends *)

Lemma timer_callback_unfold_images st :
  has_images st = true ->
  timer_callback E st = for_each (keys (COLORS_HSV E)) (tick_body E) st.
Proof. intros H. rewrite timer_callback_unfold, H. reflexivity. Qed.

Lemma tick_body_frames (x : string) s r s' ev :
  tick_body E x s = (r, s', ev) ->
  (map child_frame_id (transforms ev) = [frame_name x]
   \/ (map child_frame_id (transforms ev) = [] /\ exists e, r = Err e)).
Proof.
  intros H. unfold tick_body in H. unfold bind at 1, lift at 1 in H.
  destruct (dict_get (COLORS_HSV E) x) as [hsv|e0];
    [|injection H as <- _ <-; right; eauto].
  unfold bind at 1 in H.
  destruct (broadcast_color E (fst hsv) (snd hsv) x s) as [[[[]|e] s2] ev2] eqn:Hb.
  - pose proof (call_detect_illumination_stable E x s2) as Hc. unfold wp in Hc.
    destruct (call_detect_illumination E x s2) as [[r3 s3] ev3].
    destruct Hc as (_ & _ & _ & ->). injection H as _ _ <-. rewrite app_nil_r.
    destruct (broadcast_color_completed E _ _ _ _ _ _ Hb)
      as (idx & c & pre & s1 & mc & xyz & _ & Hf & _ & _ & _ & _ & _ & ->).
    destruct (find_color_centroid_events _ _ _ _ _ _ Hf) as [_ Hpre].
    left. rewrite transforms_app.
    destruct Hpre as [->|(c0 & img & _ & ->)]; reflexivity.
  - destruct (broadcast_color_raises_quietly _ _ _ _ _ _ _ Hb) as (Hnt & _).
    injection H as <- _ <-. right. rewrite Hnt. eauto.
Qed.

Lemma tick_loop_frames (xs : list string) :
  forall s r s' ev,
    for_each xs (tick_body E) s = (r, s', ev) ->
    exists n, map child_frame_id (transforms ev) = map frame_name (firstn n xs).
Proof.
  induction xs as [|x xs IH]; intros s r s' ev H; simpl in H.
  - injection H as _ _ <-. exists 0%nat. reflexivity.
  - unfold bind at 1 in H.
    destruct (tick_body E x s) as [[rx s1] ev1] eqn:Hx.
    destruct (tick_body_frames x s rx s1 ev1 Hx) as [Hone|[Hnone [e ->]]].
    + destruct rx as [[]|e].
      * destruct (for_each xs (tick_body E) s1) as [[r2 s2] ev2] eqn:Hrest.
        injection H as _ _ <-. destruct (IH _ _ _ _ Hrest) as [n Hn].
        exists (S n). rewrite transforms_app, map_app, Hone, Hn. reflexivity.
      * injection H as _ _ <-. exists 1%nat. rewrite Hone. reflexivity.
    + injection H as _ _ <-. exists 0%nat. rewrite Hnone. reflexivity.
Qed.

(** However a tick ends, the transforms it has sent are those of the first
    [n] configured colours for some [n], one each, in the order of the
    table: a colour gets its transform only after all the colours before
    it, and an exception leaves the later colours without one. *)
Theorem tick_transforms_are_a_prefix st r st' evs :
  timer_callback E st = (r, st', evs) ->
  exists n,
    map child_frame_id (transforms evs)
    = map (fun color => (color ++ "_frame")%string) (firstn n (keys (COLORS_HSV E)))
    /\ (r = Ok tt -> has_images st = true ->
        length (transforms evs) = length (keys (COLORS_HSV E))).
Proof.
  intros H. rewrite timer_callback_unfold in H.
  destruct (has_images st) eqn:Himg.
  - destruct (tick_loop_frames _ _ _ _ _ H) as [n Hn]. exists n. split; [exact Hn|].
    intros -> _.
    rewrite <- timer_callback_unfold_images in H by exact Himg.
    destruct (timer_callback_completed E st st' evs Himg H) as (_ & evss & -> & HF).
    apply tick_transforms in HF. apply Forall2_length in HF. symmetry. exact HF.
  - injection H as _ _ <-. exists 0%nat. split; [reflexivity|]. discriminate.
Qed.

Lemma rmap_pointwise {A B : Type} (f : A -> result B) (g : A -> B) (l : list A) :
  Forall (fun a => f a = Ok (g a)) l -> rmap f l = Ok (map g l).
Proof.
  induction 1 as [|a l Ha _ IH]; simpl; [reflexivity|].
  rewrite Ha. simpl. rewrite IH. reflexivity.
Qed.

(** A depth image of one row does not raise against a colour image of
    another height: numpy repeats the row, and every row of the colour image
    is gated by that one row of depths. *)
Theorem one_row_depth_is_broadcast (clip : Z) (drow : list Z) (color_img : image pixel) :
  Forall (fun crow => length crow = length drow) color_img ->
  bg_removed clip [drow] color_img = Ok (map (gate_row clip drow) color_img).
Proof.
  intros Hw.
  assert (Hrow : Forall (fun crow =>
                   broadcast_axis (fun d p => Ok (where0 clip (dstack3 d) p)) drow crow
                   = Ok (gate_row clip drow crow)) color_img).
  { eapply Forall_impl; [|exact Hw]. intros crow Hlen. cbv beta in *.
    rewrite broadcast_axis_same_length by congruence.
    apply (zip_with_pointwise _ (fun d p => where0 clip (dstack3 d) p)).
    apply Forall2_of_length; [auto|congruence]. }
  unfold bg_removed. unfold broadcast_axis at 1.
  destruct (Nat.eqb_spec (length [drow]) (length color_img)) as [Heq|_].
  - destruct color_img as [|crow [|crow' rest]]; simpl in Heq; try discriminate.
    inversion Hrow as [|? ? Hc _]; subst. cbn [zip_with rbind map].
    rewrite Hc. reflexivity.
  - apply rmap_pointwise. exact Hrow.
Qed.

End MoreProperties.




(** * The properties on the concrete configuration *)

Lemma demo_env_total : collaborators_total Demo.env.
Proof.
  split.
  - intros c x y frame. simpl. unfold Demo.deproject.
    destruct ((x =? -1) || (y =? -1)); [eexists; reflexivity|].
    destruct (at_px (depth_image c) (Z.to_nat y) (Z.to_nat x)) as [d|];
      [|eexists; reflexivity].
    destruct (d =? 0); eexists; reflexivity.
  - intros c color. reflexivity.
Qed.

(** C1 on the scene where RED is not seen: the tick's call for RED turns
    the history [(0,0); (0,0); (0,0)] into [(0,0); (0,0); (-1,-1)]. *)
Lemma sentinel_is_appended_to_history_witness :
  exists r st' evs,
    broadcast_color Demo.env Demo.red_lo Demo.red_hi "RED" Demo.watching = (r, st', evs)
    /\ getitem (histories st') 0 = Ok [(0, 0); (0, 0); (-1, -1)].
Proof.
  eexists. eexists. eexists. split; [vm_compute; reflexivity|].
  eapply (proj2 (sentinel_is_appended_to_history Demo.env Demo.red_lo Demo.red_hi "RED"
                   Demo.watching 0 (0, 0) [(0, 0); (0, 0)]
                   [[0; 0; 0]; [0; 0; 0]; [0; 0; 0]]
                   eq_refl eq_refl eq_refl eq_refl eq_refl)).
  vm_compute. reflexivity.
Defined.


(** C3 on the scene seen through the rectangle of the top left pixel: the
    mask of BLUE has an "on" pixel, none of them in the rectangle. *)
Lemma not_found_when_roi_has_no_on_pixel_witness :
  np_any Demo.blue_mask = true
  /\ exists pre,
      find_color_centroid Demo.env Demo.blue_lo Demo.blue_hi Demo.outside_roi
      = (Ok not_found, Demo.outside_roi, pre).
Proof.
  split; [reflexivity|].
  exact (proj2 (not_found_when_roi_has_no_on_pixel Demo.env Demo.blue_lo Demo.blue_hi
                  Demo.outside_roi Demo.blue_mask eq_refl eq_refl eq_refl)).
Defined.

(** C4 as the specification words it fails on a history of ten samples:
    the median of the x axis is 3/2, and the pixel handed on is (1, 1). *)
Lemma emitted_centroid_is_not_the_median :
  np_median (map fst Demo.h10) = Ok (3 # 2)%Q
  /\ smoothed 1 Demo.half_filled = (Ok (1, 1), Demo.half_filled, [])
  /\ ~ (inject_Z 1 == 3 # 2)%Q.
Proof.
  split; [reflexivity|]. split; [reflexivity|].
  intros H. vm_compute in H. discriminate.
Qed.

(** C4 as the code has it, on that node. *)
Lemma smoothed_centroid_is_truncated_median_witness :
  exists st' evs,
    broadcast_color Demo.env Demo.blue_lo Demo.blue_hi "BLUE" Demo.half_filled = (Ok tt, st', evs)
    /\ exists idx h mx,
        getitem (histories st') idx = Ok h
        /\ np_median (map fst h) = Ok mx
        /\ list_min (map fst h) <= py_int mx <= list_max (map fst h).
Proof.
  eexists. eexists. split; [vm_compute; reflexivity|].
  match goal with
  | |- context [getitem (histories ?s) _] =>
      destruct (smoothed_centroid_is_truncated_median Demo.env Demo.blue_lo Demo.blue_hi "BLUE"
                  Demo.half_filled s _ eq_refl)
        as (idx & h & mx & my & st1 & pre & t & _ & Hg & Hx & _ & _ & _ & _ & Bx & _ & _)
  end.
  exists idx, h, mx. auto.
Defined.

(** C5 on the scene: the deprojection of the blue pixel is valid and
    becomes the fallback. *)
Lemma fallback_is_shared_and_guarded_witness :
  exists st' t,
    broadcast_color_frame Demo.env "camera_depth_frame" "BLUE_frame" 1 2 Demo.watching
    = (Ok tt, st', [SendTransform t])
    /\ prev_xyz st' = (0%float, 250%float, 500%float)
    /\ translation t = (500%float, (-0)%float, (-250)%float).
Proof.
  destruct (fallback_is_shared_and_guarded Demo.env "camera_depth_frame" "BLUE_frame"
              1 2 Demo.watching (0%float, 250%float, 500%float) eq_refl)
    as (st' & t & Hrun & _ & Hvalid & _).
  exists st', t. split; [exact Hrun|]. exact (Hvalid eq_refl).
Defined.

(** C6 on the scene: toggle, two ticks with a change of images between
    them, toggle. *)
Lemma freeze_keeps_histories_witness :
  exists st2 evs,
    spin Demo.env
      (Toggle :: [Tick; ColorMsg Demo.scene2; DepthMsg Demo.depth2; Tick] ++ [Toggle])
      Demo.watching = (Ok tt, st2, evs)
    /\ histories st2 = histories Demo.watching
    /\ update_colors st2 = true.
Proof.
  eexists. eexists. split; [vm_compute; reflexivity|].
  eapply (proj1 (proj2 (freeze_keeps_histories Demo.env Demo.watching
                          [Tick; ColorMsg Demo.scene2; DepthMsg Demo.depth2; Tick]
                          eq_refl _))).
  vm_compute. reflexivity.
  Unshelve. repeat constructor; discriminate.
Defined.

(** C7 on the scene with both colours. *)
Lemma frames_are_remapped_per_color_witness :
  exists st' evs,
    timer_callback Demo.env Demo.two_colours = (Ok tt, st', evs)
    /\ map child_frame_id (transforms evs) = ["RED_frame"; "BLUE_frame"]%string.
Proof.
  destruct (frames_are_remapped_per_color Demo.env Demo.two_colours
              demo_env_total eq_refl eq_refl) as (st' & evs & Hrun & HF).
  exists st', evs. split; [exact Hrun|].
  exact (frames_served_children Demo.env _ _ _ _ HF).
Defined.

(** C8 on the node that has received no image. *)
Lemma tick_without_images_is_noop_witness :
  timer_callback Demo.env Demo.fresh = (Ok tt, Demo.fresh, []).
Proof.
  apply (tick_without_images_is_noop Demo.env Demo.fresh). left. reflexivity.
Defined.

(** C9 as the specification words it fails: a tick on the scene with both
    colours publishes two images, a tick on the scene with neither publishes
    none; in neither tick is the image published exactly once. *)
Lemma image_count_is_not_one :
  (length (images (snd (timer_callback Demo.env Demo.two_colours))) = 2%nat
   /\ length (images (snd (timer_callback Demo.env Demo.two_colours))) <> 1%nat)
  /\ (length (images (snd (timer_callback Demo.env Demo.nothing))) = 0%nat
      /\ length (images (snd (timer_callback Demo.env Demo.nothing))) <> 1%nat).
Proof. split; split; vm_compute; (reflexivity || discriminate). Qed.

(** C9 as the code has it, on the scene with both colours. *)
Lemma image_once_per_detected_color_witness :
  exists st' evs,
    timer_callback Demo.env Demo.two_colours = (Ok tt, st', evs)
    /\ length (images evs) = 2%nat.
Proof.
  eexists. eexists. split; [vm_compute; reflexivity|].
  match goal with
  | |- length (images ?evs) = _ =>
      rewrite (proj1 (image_once_per_detected_color Demo.env Demo.two_colours _ evs
                        eq_refl eq_refl))
  end.
  reflexivity.
Defined.

(** C10 on the surface at depth 2: the pixel of column 0 and row 2
    deprojects to (-1, 1, 2), a point of the surface, and is replaced by the
    fallback. *)
Lemma validity_test_reads_x_only_witness :
  get_3d_coordinates_at_pixel Demo.env (cv2_client Demo.near) 0 2 "RED_frame"
  = Ok ((-1)%float, 1%float, 2%float)
  /\ exists st' t,
      broadcast_color_frame Demo.env "camera_depth_frame" "RED_frame" 0 2 Demo.near
      = (Ok tt, st', [SendTransform t])
      /\ prev_xyz st' = prev_xyz Demo.near
      /\ translation t = remap (prev_xyz Demo.near).
Proof.
  split; [reflexivity|].
  destruct (validity_test_reads_x_only Demo.env "camera_depth_frame" "RED_frame" 0 2
              Demo.near (-1)%float 1%float 2%float eq_refl)
    as (st' & t & Hrun & Hinvalid & _).
  exists st', t. split; [exact Hrun|]. exact (Hinvalid eq_refl).
Defined.

(** Requests served to their end: three toggles, and the last images. *)
Lemma spin_follows_requests_witness :
  exists st' evs,
    spin Demo.env Demo.traffic Demo.watching = (Ok tt, st', evs)
    /\ update_colors st' = false
    /\ color_image (cv2_client st') = Demo.scene2
    /\ depth_image (cv2_client st') = Demo.depth2
    /\ camera_intrinsics (cv2_client st') = camera_intrinsics (cv2_client Demo.watching).
Proof.
  eexists. eexists. split; [vm_compute; reflexivity|].
  eapply (spin_follows_requests Demo.env Demo.traffic Demo.watching).
  vm_compute. reflexivity.
Defined.

Lemma spin_keeps_capacity_witness :
  exists r st' evs,
    spin Demo.env Demo.traffic Demo.watching = (r, st', evs)
    /\ crop st' = crop Demo.watching
    /\ clipping_distance st' = clipping_distance Demo.watching
    /\ map (@length (Z * Z)) (histories st') = [3%nat; 3%nat]
    /\ length (histories st') = 2%nat.
Proof.
  eexists. eexists. eexists. split; [vm_compute; reflexivity|].
  eapply (spin_keeps_capacity Demo.env Demo.traffic Demo.watching).
  vm_compute. reflexivity.
Defined.

Lemma tick_leaves_inputs_witness :
  exists r st' evs,
    timer_callback Demo.env Demo.two_colours = (r, st', evs)
    /\ color_image (cv2_client st') = Demo.scene2
    /\ depth_image (cv2_client st') = Demo.depth2.
Proof.
  eexists. eexists. eexists. split; [vm_compute; reflexivity|].
  refine (let H := tick_leaves_inputs Demo.env Demo.two_colours _ _ _ _ in
          conj (proj1 (proj2 (proj2 (proj2 H))))
               (proj1 (proj2 (proj2 (proj2 (proj2 H)))))).
  vm_compute. reflexivity.
Defined.

Lemma nothing_sent_before_first_color_image_witness :
  exists st',
    spin Demo.env [Tick; DepthMsg Demo.depth; Toggle; Tick; CameraInfoMsg []] Demo.fresh
    = (Ok tt, st', [])
    /\ histories st' = histories Demo.fresh
    /\ prev_xyz st' = prev_xyz Demo.fresh
    /\ clock_reads st' = clock_reads Demo.fresh.
Proof.
  exact (nothing_sent_before_first_color_image Demo.env
           [Tick; DepthMsg Demo.depth; Toggle; Tick; CameraInfoMsg []] Demo.fresh
           eq_refl eq_refl).
Defined.

Lemma nothing_sent_before_first_depth_image_witness :
  exists st',
    spin Demo.env [Tick; ColorMsg Demo.scene; Tick; Toggle; Tick] Demo.fresh
    = (Ok tt, st', [])
    /\ histories st' = histories Demo.fresh
    /\ prev_xyz st' = prev_xyz Demo.fresh
    /\ clock_reads st' = clock_reads Demo.fresh.
Proof.
  exact (nothing_sent_before_first_depth_image Demo.env
           [Tick; ColorMsg Demo.scene; Tick; Toggle; Tick] Demo.fresh
           eq_refl eq_refl).
Defined.

Lemma find_color_centroid_is_read_only_witness :
  exists r st' evs,
    find_color_centroid Demo.env Demo.blue_lo Demo.blue_hi Demo.watching = (r, st', evs)
    /\ st' = Demo.watching
    /\ transforms evs = []
    /\ (forall c c2 s2 pre2,
          r = Ok c ->
          find_color_centroid Demo.env Demo.blue_lo Demo.blue_hi
            Demo.half_filled
          = (Ok c2, s2, pre2) ->
          c2 = c).
Proof.
  eexists. eexists. eexists. split; [vm_compute; reflexivity|].
  refine (let H := find_color_centroid_is_read_only Demo.env Demo.blue_lo Demo.blue_hi
                     Demo.watching _ _ _ _ in
          conj (proj1 H)
            (conj (proj1 (proj2 H))
               (fun c c2 s2 pre2 =>
                  proj2 (proj2 (proj2 H))
                    Demo.half_filled
                    c c2 s2 pre2 eq_refl eq_refl eq_refl eq_refl))).
  vm_compute. reflexivity.
Defined.

Lemma image_without_pixels_raises_witness :
  timer_callback Demo.env Demo.no_columns = (Err Cv2Error, Demo.no_columns, [])
  /\ has_images Demo.no_columns = true
  /\ well_configured Demo.env Demo.no_columns = false.
Proof.
  split; [|split; reflexivity].
  refine (proj2 (proj2 (image_without_pixels_raises Demo.env Demo.red_lo Demo.red_hi
                          "RED" 0 Demo.no_columns [[]; []; []] _ _ _))
            ["BLUE"%string] _ _);
    vm_compute; reflexivity.
Defined.


Lemma shape_mismatch_raises_witness :
  find_color_centroid Demo.env Demo.blue_lo Demo.blue_hi Demo.mismatched
  = (Err ValueError, Demo.mismatched, [])
  /\ timer_callback Demo.env Demo.mismatched = (Err ValueError, Demo.mismatched, []).
Proof.
  destruct (shape_mismatch_raises Demo.env Demo.blue_lo Demo.blue_hi "RED" 0
              Demo.mismatched ltac:(discriminate) ltac:(discriminate)
              ltac:(discriminate) eq_refl) as (Hf & _ & Ht).
  split; [exact Hf|]. exact (Ht ["BLUE"%string] eq_refl eq_refl).
Defined.

Lemma one_row_depth_is_broadcast_witness :
  bg_removed 1400 [[500; 2000; 0]] Demo.scene
  = Ok [[Demo.grey; zero_px; zero_px]; [Demo.grey; zero_px; zero_px];
        [Demo.grey; zero_px; zero_px]].
Proof.
  apply (one_row_depth_is_broadcast 1400 [500; 2000; 0] Demo.scene).
  repeat constructor.
Defined.

Lemma median_follows_majority_witness : median_centroid Demo.noisy = Ok (5, 7).
Proof.
  apply (median_follows_majority Demo.noisy 5 7); vm_compute; repeat constructor.
Defined.

Lemma history_update_rule_witness :
  exists r st' evs,
    broadcast_color Demo.env Demo.blue_lo Demo.blue_hi "BLUE" Demo.watching = (r, st', evs)
    /\ histories st' = [Demo.zeros3; [(0, 0); (0, 0); (1, 2)]].
Proof.
  eexists. eexists. eexists. split; [vm_compute; reflexivity|].
  refine (history_update_rule Demo.env Demo.blue_lo Demo.blue_hi "BLUE" Demo.watching
            1 (1, 2) _ Demo.zeros3 eq_refl _ eq_refl _ _ _ _);
    vm_compute; reflexivity.
Defined.

(** Three ticks on the scene: the history of BLUE is filled with its
    centroid (1, 2), the history of RED, which is not seen, with the
    sentinel. *)
Lemma steady_detection_fills_history_witness :
  exists st' evs,
    spin Demo.env (repeat Tick 3) Demo.watching = (Ok tt, st', evs)
    /\ (getitem (histories st') 1 = Ok [(1, 2); (1, 2); (1, 2)]
        /\ smoothed 1 st' = (Ok (1, 2), st', []))
    /\ (getitem (histories st') 0 = Ok [(-1, -1); (-1, -1); (-1, -1)]
        /\ smoothed 0 st' = (Ok (-1, -1), st', [])).
Proof.
  eexists. eexists. split; [vm_compute; reflexivity|].
  split.
  - refine (proj2 (proj2 (steady_detection_fills_history Demo.env "BLUE"
                            (Demo.blue_lo, Demo.blue_hi) 1 3 (1, 2) Demo.zeros3
                            Demo.watching _ _
                            eq_refl eq_refl eq_refl eq_refl eq_refl _ _ eq_refl _)) _ _);
      first [vm_compute; reflexivity | vm_compute; discriminate | vm_compute; lia].
  - refine (proj2 (proj2 (steady_detection_fills_history Demo.env "RED"
                            (Demo.red_lo, Demo.red_hi) 0 3 (-1, -1) Demo.zeros3
                            Demo.watching _ _
                            eq_refl eq_refl eq_refl eq_refl eq_refl _ _ eq_refl _)) _ _);
      first [vm_compute; reflexivity | vm_compute; discriminate | vm_compute; lia].
Defined.

(** A deprojector that raises after the image was published and the
    history was updated. *)
Lemma raise_sends_no_transform_witness :
  exists st' img,
    broadcast_color Demo.env_raising Demo.blue_lo Demo.blue_hi "BLUE" Demo.watching
    = (Err (Raised 0), st', [PublishImage img])
    /\ transforms [PublishImage img] = []
    /\ prev_xyz st' = prev_xyz Demo.watching
    /\ clock_reads st' = clock_reads Demo.watching.
Proof.
  eexists. eexists. split; [vm_compute; reflexivity|].
  eapply (raise_sends_no_transform Demo.env_raising Demo.blue_lo Demo.blue_hi "BLUE"
            Demo.watching).
  vm_compute. reflexivity.
Defined.

(** The tick raises at BLUE, the second colour: RED has its transform. *)
Lemma tick_transforms_are_a_prefix_witness :
  exists st' evs,
    timer_callback Demo.env_raising Demo.watching = (Err (Raised 0), st', evs)
    /\ exists n,
        map child_frame_id (transforms evs)
        = map (fun color => (color ++ "_frame")%string)
              (firstn n (keys (COLORS_HSV Demo.env_raising)))
        /\ (Err (Raised 0) = Ok tt -> has_images Demo.watching = true ->
            length (transforms evs) = length (keys (COLORS_HSV Demo.env_raising))).
Proof.
  eexists. eexists. split; [vm_compute; reflexivity|].
  eapply (tick_transforms_are_a_prefix Demo.env_raising Demo.watching).
  vm_compute. reflexivity.
Defined.
